(** * QrScanner: a model of src/qrcode/qr-scanner.js

    The scanner offers one operation, [scanImage], over two decoding
    backends: a worker reached through a message channel and the platform's
    BarcodeDetector.  The file embeds the class as state-passing functions
    over an explicit process state ([State]: the two private static fields,
    the canvases, the engines created and a trace of the observable effects)
    and an explicit environment ([World]: what the browser, the worker and
    the detector answer), and proves the properties the specification
    states about it. *)

From Stdlib Require Import ZArith String Ascii List Bool Sorted Lia.
From stdpp Require Import base list strings.
Import ListNotations.
Local Open Scope Z_scope.

(** ** Strings and the regular expressions of the source *)

Module Js.

(** Lower-casing of the ASCII letters, as the [i] flag compares them. *)
Definition lower_ascii (c : ascii) : ascii :=
  let n := nat_of_ascii c in
  if ((65 <=? n) && (n <=? 90))%nat then ascii_of_nat (n + 32) else c.

Fixpoint lower (s : string) : string :=
  match s with
  | EmptyString => EmptyString
  | String c s' => String (lower_ascii c) (lower s')
  end.

(** [contains p s]: the literal [p] occurs in [s]; [/p/.test(s)]. *)
Fixpoint contains (p s : string) : bool :=
  String.prefix p s ||
  match s with
  | EmptyString => false
  | String _ s' => contains p s'
  end.

(** [/p/i.test(s)] for a lower-case literal [p]. *)
Definition contains_i (p s : string) : bool := contains p (lower s).

(** [a || b] on an optional string: the empty string is falsy. *)
Definition str_or (a : option string) (b : string) : string :=
  match a with
  | Some EmptyString | None => b
  | Some s => s
  end.

(** A number is truthy when it is not zero (the model has no NaN). *)
Definition truthy (a : option Z) : bool :=
  match a with
  | Some v => negb (v =? 0)
  | None => false
  end.

(** [a || b] and [a ? a : b] on an optional number. *)
Definition num_or (a : option Z) (b : Z) : Z :=
  match a with
  | Some v => if v =? 0 then b else v
  | None => b
  end.

(** The ASCII white space that [parseInt] skips. *)
Definition is_space (c : ascii) : bool :=
  let n := nat_of_ascii c in
  ((9 <=? n) && (n <=? 13) || (n =? 32))%nat.

Fixpoint skip_spaces (s : string) : string :=
  match s with
  | String c s' => if is_space c then skip_spaces s' else s
  | EmptyString => s
  end.

Definition digit_value (radix : Z) (c : ascii) : option Z :=
  let n := Z.of_nat (nat_of_ascii c) in
  let v := if (48 <=? n) && (n <=? 57) then Some (n - 48)
           else if (97 <=? n) && (n <=? 122) then Some (n - 87)
           else if (65 <=? n) && (n <=? 90) then Some (n - 55)
           else None in
  match v with
  | Some d => if d <? radix then Some d else None
  | None => None
  end.

(** The longest prefix of digits; [None] when there is no digit (NaN). *)
Fixpoint digits (radix : Z) (acc : option Z) (s : string) : option Z :=
  match s with
  | EmptyString => acc
  | String c s' =>
      match digit_value radix c with
      | Some d => digits radix (Some (radix * default 0 acc + d)) s'
      | None => acc
      end
  end.

(** [parseInt(s)] without a radix argument; [None] is NaN. *)
Definition parseInt (s : string) : option Z :=
  let s := skip_spaces s in
  let '(sign, s) :=
    match s with
    | String "-" s' => (-1, s')
    | String "+" s' => (1, s')
    | _ => (1, s)
    end in
  let '(radix, s) :=
    match s with
    | String "0" (String "x" s') | String "0" (String "X" s') => (16, s')
    | _ => (10, s)
    end in
  match digits radix None s with
  | Some v => Some (sign * v)
  | None => None
  end.

(** [n >= k] where [n] may be NaN: false on NaN. *)
Definition ge (n : option Z) (k : Z) : bool :=
  match n with
  | Some v => k <=? v
  | None => false
  end.

End Js.

(** ** The data model *)

(** [QrScanner.ScanRegion]: every field is optional. *)
Record ScanRegion := {
  sr_x : option Z;
  sr_y : option Z;
  sr_width : option Z;
  sr_height : option Z;
  sr_downScaledWidth : option Z;
  sr_downScaledHeight : option Z
}.

Record Point := { p_x : Z; p_y : Z }.

(** [QrScanner.ScanResult]. *)
Record ScanResult := { data : string }.

(** A drawable image: an element, canvas or bitmap with its dimensions. *)
Record Image := { img_id : nat; img_width : Z; img_height : Z }.

(** One [drawImage] call: source rectangle and destination size. *)
Record DrawOp := {
  d_image : Image;
  d_sx : Z; d_sy : Z; d_sw : Z; d_sh : Z;
  d_dw : Z; d_dh : Z
}.

(** A canvas: its dimensions and what was drawn on it since its bitmap was
    last cleared, most recent first. *)
Record Canvas := {
  c_width : Z;
  c_height : Z;
  c_content : list DrawOp
}.

(** [Worker | BarcodeDetector], with the identity of the object. *)
Inductive Engine :=
| EWorker (w : nat)
| EBarcodeDetector (d : nat).

(** The [qrEngine] option when present: an engine (or a promise that
    resolves to one, which [await] does not tell apart), or a promise that
    rejects. *)
Inductive EngineArg :=
| ArgEngine (e : Engine)
| ArgRejects (reason : string).

(** The options object of [scanImage]; an absent boolean reads as false. *)
Record Options := {
  scanRegion : option ScanRegion;
  qrEngine : option EngineArg;
  canvas : option nat;
  disallowCanvasResizing : bool;
  alsoTryWithoutScanRegion : bool;
  timeout : option Z
}.

(** The first argument of [scanImage], by the branch of [_loadImage] that
    takes it. *)
Inductive ImageSource :=
| SrcImage (complete : bool) (naturalWidth : Z) (img : Image)
| SrcDrawable (img : Image)
| SrcBlob (blob : nat)
| SrcUrl (url : string)
| SrcUnsupported.

(** What a worker message carries. *)
Inductive Payload :=
| PNone
| PString (s : string)
| PImageData (w h : Z) (pixels : list DrawOp).

(** The effects a run leaves behind; a trace lists them most recent first. *)
Inductive Effect :=
| EPost (w : nat) (id : Z) (type : string) (payload : Payload)
| ETimer (ms : Z)
| ECreateWorker (w : nat)
| ENewDetector (d : nat)
| EDetect (d : nat) (canvas : nat)
| ECreateObjectURL (blob : nat)
| ERevokeObjectURL (blob : nat)
| ESetWidth (canvas : nat) (v : Z)
| ESetHeight (canvas : nat) (v : Z)
| ERetryWithoutDetector
| ERetryWithoutRegion.

(** The process.  [_workerMessageId] is a JavaScript number that only ever
    takes the values 0, 1, 2, ...; it is modelled as an integer, which is
    exact for the first 2^53 messages of a process. *)
Record State := {
  _disableBarcodeDetector : bool;
  _workerMessageId : Z;
  canvases : list Canvas;
  workers : nat;
  detectors : nat;
  clock : nat;
  trace : list Effect
}.

Definition initial : State :=
  {| _disableBarcodeDetector := false; _workerMessageId := 0;
     canvases := []; workers := 0; detectors := 0; clock := 0; trace := [] |}.

(** *** The environment *)

Record Brand := { brand : string; version : string }.

(** What [getHighEntropyValues] answers. *)
Inductive Probe :=
| ProbeResolves (architecture platformVersion : option string)
| ProbeRejects.

Record UserAgentData := {
  platform : string;
  brands : list Brand;
  getHighEntropyValues : Probe
}.

(** The event that ends the wait for an image to load. *)
Inductive ImageEvent :=
| LoadFired (w h : Z)
| ErrorEventFired
| OtherEventFired.

(** The argument of the worker's error listener. *)
Inductive ErrorArg :=
| ErrEvent (tag : string) (message : option string)
| ErrString (s : string)
| ErrAbsent.

(** What arrives on a worker's channel. *)
Inductive ChannelEvent :=
| MessageEvent (id : Z) (payload : option string)
| ErrorEvent (err : ErrorArg).

Record Detection := { rawValue : string; cornerPoints : list Point }.

(** A value thrown by the platform: a string or an Error object. *)
Inductive Thrown :=
| ThrownString (s : string)
| ThrownError (name message : string).

(** What a [detect] call does before the deadline. *)
Inductive DetectOutcome :=
| Detected (results : list Detection)
| DetectFailed (e : Thrown)
| DetectPending.

(** Everything outside the class.  The answers that may change from one
    call to the next are indexed by the process clock: the n-th import of
    the worker module, the n-th wait for an image, the [detect] call of a
    detector (with its deadline), and which of two rejections
    [Promise.all] sees first.  The events on a worker's channel are indexed
    by the worker, the id of the decode request and the deadline within
    which they arrive.  Every promise of the environment settles.
    [imageDataThrows] is the exception [getImageData] meets on a canvas it
    may not read, and [retryInTime] tells whether the retry that follows a
    capability error settles before the timer of the race it runs in. *)
Record World := {
  barcodeDetectorInWindow : bool;
  hasGetSupportedFormats : bool;
  getSupportedFormats : string + list string;
  userAgentData : option UserAgentData;
  importWorker : nat -> option string;
  imageLoad : nat -> ImageEvent;
  channel : nat -> Z -> Z -> list ChannelEvent;
  detect : nat -> nat -> Z -> DetectOutcome;
  allRejectsWithEngine : nat -> bool;
  imageDataThrows : nat -> option string;
  retryInTime : nat -> Z -> bool
}.

(** *** Results *)

Inductive Res (A : Type) :=
| Ok (a : A)
| Throw (e : string).
Arguments Ok {A} a.
Arguments Throw {A} e.

(** How a promise of a scan result settles. *)
Inductive Outcome :=
| Resolved (r : ScanResult)
| Rejected (e : string).

(** A computation that reads and updates the process and may throw. *)
Definition M (A : Type) : Type := State -> Res A * State.

Definition ret {A} (a : A) : M A := fun st => (Ok a, st).

Definition throw {A} (e : string) : M A := fun st => (Throw e, st).

Definition bind {A B} (m : M A) (f : A -> M B) : M B :=
  fun st =>
    match m st with
    | (Ok a, st') => f a st'
    | (Throw e, st') => (Throw e, st')
    end.

Notation "'let*' x := m 'in' k" := (bind m (fun x => k))
  (at level 10, x name, m at level 100, k at level 200).

(** *** State updates *)

Definition log (ev : Effect) (st : State) : State :=
  {| _disableBarcodeDetector := _disableBarcodeDetector st;
     _workerMessageId := _workerMessageId st;
     canvases := canvases st; workers := workers st;
     detectors := detectors st; clock := clock st;
     trace := ev :: trace st |}.

Definition tick (st : State) : State :=
  {| _disableBarcodeDetector := _disableBarcodeDetector st;
     _workerMessageId := _workerMessageId st;
     canvases := canvases st; workers := workers st;
     detectors := detectors st; clock := S (clock st);
     trace := trace st |}.

Definition set_canvases (cs : list Canvas) (st : State) : State :=
  {| _disableBarcodeDetector := _disableBarcodeDetector st;
     _workerMessageId := _workerMessageId st;
     canvases := cs; workers := workers st;
     detectors := detectors st; clock := clock st;
     trace := trace st |}.

Definition set_workers (n : nat) (st : State) : State :=
  {| _disableBarcodeDetector := _disableBarcodeDetector st;
     _workerMessageId := _workerMessageId st;
     canvases := canvases st; workers := n;
     detectors := detectors st; clock := clock st;
     trace := trace st |}.

Definition set_detectors (n : nat) (st : State) : State :=
  {| _disableBarcodeDetector := _disableBarcodeDetector st;
     _workerMessageId := _workerMessageId st;
     canvases := canvases st; workers := workers st;
     detectors := n; clock := clock st;
     trace := trace st |}.

Definition set_workerMessageId (id : Z) (st : State) : State :=
  {| _disableBarcodeDetector := _disableBarcodeDetector st;
     _workerMessageId := id;
     canvases := canvases st; workers := workers st;
     detectors := detectors st; clock := clock st;
     trace := trace st |}.

Definition set_disableBarcodeDetector (b : bool) (st : State) : State :=
  {| _disableBarcodeDetector := b;
     _workerMessageId := _workerMessageId st;
     canvases := canvases st; workers := workers st;
     detectors := detectors st; clock := clock st;
     trace := trace st |}.

(** ** The class *)

Definition is_some {A} (o : option A) : bool :=
  match o with
  | Some _ => true
  | None => false
  end.

Definition NO_QR_CODE_FOUND : string := "No QR code found".

Section QrScanner.

Variable W : World.

(** *** Worker messages *)

(** [_postWorkerMessageSync]: a message goes out only to a worker; the
    argument may be undefined at run time (the cleanup passes
    [qrEngine!]). *)
Definition _postWorkerMessageSync (qrEngine : option Engine) (type : string)
    (payload : Payload) (st : State) : Z * State :=
  match qrEngine with
  | Some (EWorker w) =>
      let id := _workerMessageId st in
      (id, log (EPost w id type payload) (set_workerMessageId (id + 1) st))
  | _ => (-1, st)
  end.

(** [_postWorkerMessage]: awaits its argument first; its own promise is
    dropped by the caller, so a rejection has no effect on the scan. *)
Definition _postWorkerMessage (qrEngineOrQrEnginePromise : option EngineArg)
    (type : string) (payload : Payload) (st : State) : State :=
  match qrEngineOrQrEnginePromise with
  | Some (ArgEngine e) => snd (_postWorkerMessageSync (Some e) type payload st)
  | Some (ArgRejects _) => st
  | None => snd (_postWorkerMessageSync None type payload st)
  end.

(** *** Engine selection *)

(** The dynamic import of the worker module and its [createWorker]. *)
Definition createWorker : M Engine :=
  fun st =>
    match importWorker W (clock st) with
    | None =>
        (Ok (EWorker (workers st)),
         log (ECreateWorker (workers st))
           (set_workers (S (workers st)) (tick st)))
    | Some reason => (Throw reason, tick st)
    end.

Definition useBarcodeDetector : M bool :=
  fun st =>
    if _disableBarcodeDetector st then (Ok false, st)
    else if negb (barcodeDetectorInWindow W) then (Ok false, st)
    else if negb (hasGetSupportedFormats W) then (Ok false, st)
    else match getSupportedFormats W with
         | inl reason => (Throw reason, st)
         | inr formats => (Ok (existsb (String.eqb "qr_code") formats), st)
         end.

Definition isChromiumOnMacWithArmVentura : bool :=
  match userAgentData W with
  | None => false
  | Some ua =>
      existsb (fun b => Js.contains_i "chromium" (brand b)) (brands ua)
      && (Js.contains_i "macos" (platform ua)
          || Js.contains_i "mac os" (platform ua))
      && match getHighEntropyValues ua with
         | ProbeResolves architecture platformVersion =>
             Js.contains_i "arm" (Js.str_or architecture "arm")
             && Js.ge (Js.parseInt (Js.str_or platformVersion "13")) 13
         | ProbeRejects => true
         end
  end.

Definition createQrEngine : M Engine :=
  let* use := useBarcodeDetector in
  if negb use then createWorker
  else if isChromiumOnMacWithArmVentura then createWorker
  else fun st =>
    (Ok (EBarcodeDetector (detectors st)),
     log (ENewDetector (detectors st))
       (set_detectors (S (detectors st)) st)).

(** *** The canvas *)

Definition blank : Canvas :=
  {| c_width := 300; c_height := 150; c_content := [] |}.

(** [document.createElement('canvas')]. *)
Definition createCanvas (st : State) : nat * State :=
  (length (canvases st), set_canvases (canvases st ++ [blank]) st).

Definition getCanvas (c : nat) (st : State) : Canvas :=
  default blank (canvases st !! c).

(** What a canvas stores when [v] is assigned to a dimension with the
    default [dflt]: the dimensions are unsigned longs, so [v] is taken
    modulo 2^32 and kept when it is at most 2^31 - 1; any other value
    leaves the default. *)
Definition storedDimension (dflt v : Z) : Z :=
  let u := v mod 2 ^ 32 in
  if u <=? 2147483647 then u else dflt.

(** Writing a dimension clears the bitmap, also when the value is the
    one the canvas has. *)
Definition setWidth (c : nat) (v : Z) (st : State) : State :=
  let old := getCanvas c st in
  set_canvases
    (<[c := {| c_width := storedDimension 300 v; c_height := c_height old;
               c_content := [] |}]>
       (canvases st))
    (log (ESetWidth c v) st).

Definition setHeight (c : nat) (v : Z) (st : State) : State :=
  let old := getCanvas c st in
  set_canvases
    (<[c := {| c_width := c_width old; c_height := storedDimension 150 v;
               c_content := [] |}]>
       (canvases st))
    (log (ESetHeight c v) st).

Definition drawImage (c : nat) (image : Image) (sx sy sw sh : Z)
    (st : State) : State :=
  let old := getCanvas c st in
  let op := {| d_image := image; d_sx := sx; d_sy := sy; d_sw := sw;
               d_sh := sh; d_dw := c_width old; d_dh := c_height old |} in
  set_canvases
    (<[c := {| c_width := c_width old; c_height := c_height old;
               c_content := op :: c_content old |}]> (canvases st))
    st.

(** [scanRegion && scanRegion.f ? scanRegion.f : otherwise]. *)
Definition regionField (f : ScanRegion -> option Z)
    (scanRegion : option ScanRegion) (otherwise : Z) : Z :=
  match scanRegion with
  | Some r => Js.num_or (f r) otherwise
  | None => otherwise
  end.

Definition canvasWidth (image : Image) (scanRegion : option ScanRegion) : Z :=
  regionField sr_downScaledWidth scanRegion
    (regionField sr_width scanRegion (img_width image)).

Definition canvasHeight (image : Image) (scanRegion : option ScanRegion) : Z :=
  regionField sr_downScaledHeight scanRegion
    (regionField sr_height scanRegion (img_height image)).

(** The resizing step of [_drawToCanvas]. *)
Definition resizeCanvas (image : Image) (scanRegion : option ScanRegion)
    (c : nat) (st : State) : State :=
  let st :=
    if c_width (getCanvas c st) =? canvasWidth image scanRegion then st
    else setWidth c (canvasWidth image scanRegion) st in
  if c_height (getCanvas c st) =? canvasHeight image scanRegion then st
  else setHeight c (canvasHeight image scanRegion) st.

(** [_drawToCanvas]; the context it returns is that of the canvas.
    [getContext] and [drawImage] are taken to return: a canvas that has no
    2d context and an image that cannot be drawn are outside the model. *)
Definition _drawToCanvas (image : Image) (scanRegion : option ScanRegion)
    (canvas : option nat) (disallowCanvasResizing : bool) (st : State)
    : nat * State :=
  let '(c, st) :=
    match canvas with
    | Some c => (c, st)
    | None => createCanvas st
    end in
  let scanRegionX := regionField sr_x scanRegion 0 in
  let scanRegionY := regionField sr_y scanRegion 0 in
  let scanRegionWidth := regionField sr_width scanRegion (img_width image) in
  let scanRegionHeight := regionField sr_height scanRegion (img_height image) in
  let st :=
    if disallowCanvasResizing then st
    else resizeCanvas image scanRegion c st in
  (c, drawImage c image scanRegionX scanRegionY scanRegionWidth
        scanRegionHeight st).

(** *** Loading the image *)

(** [_awaitImageLoad]: an image that is not loaded yet is waited for; the
    wait is taken to end with one of the three events, and the element
    then has the dimensions the event brings.  An element whose events
    were all fired before the call (one that is complete with a natural
    width of 0) would be waited for without end: it is outside the
    model. *)
Definition _awaitImageLoad (complete : bool) (naturalWidth : Z)
    (image : Image) : M Image :=
  if complete && negb (naturalWidth =? 0) then ret image
  else fun st =>
    match imageLoad W (clock st) with
    | LoadFired w h =>
        (Ok {| img_id := img_id image; img_width := w; img_height := h |},
         tick st)
    | ErrorEventFired => (Throw "Image load error", tick st)
    | OtherEventFired => (Ok image, tick st)
    end.

(** [new Image()] with its source set: not loaded yet. *)
Definition newImage (st : State) : Image :=
  {| img_id := clock st; img_width := 0; img_height := 0 |}.

Definition _loadImage (imageOrFileOrBlobOrUrl : ImageSource) : M Image :=
  match imageOrFileOrBlobOrUrl with
  | SrcImage complete naturalWidth img =>
      _awaitImageLoad complete naturalWidth img
  | SrcDrawable img => ret img
  | SrcBlob blob =>
      fun st =>
        let st := log (ECreateObjectURL blob) st in
        let '(r, st) := _awaitImageLoad false 0 (newImage st) st in
        (r, log (ERevokeObjectURL blob) st)
  | SrcUrl _ => fun st => _awaitImageLoad false 0 (newImage st) st
  | SrcUnsupported => throw "Unsupported image type."
  end.

(** *** The worker request *)

(** The promise of one decode request with its two listeners and timer. *)
Record Pending := {
  expectedResponseId : Z;
  messageListener : bool;
  errorListener : bool;
  timer : bool;
  settled : option Outcome
}.

(** [removeEventListener] twice and [clearTimeout]. *)
Definition teardown (p : Pending) : Pending :=
  {| expectedResponseId := expectedResponseId p;
     messageListener := false; errorListener := false; timer := false;
     settled := settled p |}.

(** [resolve] and [reject]: a settled promise stays as it is. *)
Definition settle (o : Outcome) (p : Pending) : Pending :=
  match settled p with
  | Some _ => p
  | None =>
      {| expectedResponseId := expectedResponseId p;
         messageListener := messageListener p;
         errorListener := errorListener p; timer := timer p;
         settled := Some o |}
  end.

Definition onMessage (id : Z) (payload : option string) (p : Pending)
    : Pending :=
  if negb (id =? expectedResponseId p) then p
  else
    match payload with
    | Some d => settle (Resolved {| data := d |}) (teardown p)
    | None => settle (Rejected NO_QR_CODE_FOUND) (teardown p)
    end.

(** [!error ? 'Unknown Error' : (error.message || error)], as the string
    the concatenation makes of it. *)
Definition errorMessage (error : ErrorArg) : string :=
  match error with
  | ErrAbsent => "Unknown Error"
  | ErrString EmptyString => "Unknown Error"
  | ErrString s => s
  | ErrEvent tag (Some (String c m)) => String c m
  | ErrEvent tag _ => "[object " +:+ tag +:+ "]"
  end.

Definition onError (error : ErrorArg) (p : Pending) : Pending :=
  settle (Rejected ("Scanner error: " +:+ errorMessage error)) (teardown p).

(** An event reaches a listener only while it is registered. *)
Definition dispatch (p : Pending) (ev : ChannelEvent) : Pending :=
  match ev with
  | MessageEvent id payload =>
      if messageListener p then onMessage id payload p else p
  | ErrorEvent err =>
      if errorListener p then onError err p else p
  end.

(** The timer's callback, unless the timer was cleared. *)
Definition fireTimer (p : Pending) : Pending :=
  if timer p then onError (ErrString "timeout") p else p.

Definition pending (id : Z) : Pending :=
  {| expectedResponseId := id; messageListener := true;
     errorListener := true; timer := true; settled := None |}.

(** The request with id [id]: the events that arrive within the deadline,
    then the deadline. *)
Definition request (id : Z) (events : list ChannelEvent) : Pending :=
  fireTimer (fold_left dispatch events (pending id)).

(** *** scanImage *)

(** [options['timeout'] || 10000]. *)
Definition deadline (options : Options) : Z :=
  Js.num_or (timeout options) 10000.

(** [(e as Error).message || e], as a string. *)
Definition thrownMessage (e : Thrown) : string :=
  match e with
  | ThrownString s => s
  | ThrownError name EmptyString => name
  | ThrownError _ message => message
  end.

(** [/not implemented|service unavailable/.test(errorMessage)]. *)
Definition isCapabilityError (errorMessage : string) : bool :=
  Js.contains "not implemented" errorMessage
  || Js.contains "service unavailable" errorMessage.

(** A call of [scanImage]; [None] when it does not return. *)
Definition Scan : Type :=
  ImageSource -> Options -> State -> option (Outcome * State).

(** The variables [qrEngine] and [canvas] when the try block is left. *)
Record Locals := {
  l_qrEngine : option EngineArg;
  l_canvas : option nat
}.

(** [Promise.all([qrEngine || createQrEngine(), _loadImage(...)])]: both
    are started; when both reject, the environment says which is first. *)
Definition acquire (input : ImageSource) (qrEngine : option EngineArg)
    : M (Engine * Image) :=
  fun st =>
    let '(e, st1) :=
      match qrEngine with
      | Some (ArgEngine e) => (Ok e, st)
      | Some (ArgRejects reason) => (Throw reason, st)
      | None => createQrEngine st
      end in
    let '(i, st2) := _loadImage input st1 in
    match e, i with
    | Ok e, Ok i => (Ok (e, i), st2)
    | Throw r, Ok _ => (Throw r, st2)
    | Ok _, Throw r => (Throw r, st2)
    | Throw r1, Throw r2 =>
        (Throw (if allRejectsWithEngine W (clock st) then r1 else r2), st2)
    end.

(** [canvasContext.getImageData(0, 0, canvas.width, canvas.height)]: it
    throws on a canvas without width or height, and when the environment
    does not let the canvas be read. *)
Definition getImageData (c : nat) : M Payload :=
  fun st =>
    let cv := getCanvas c st in
    if (c_width cv =? 0) || (c_height cv =? 0)
    then (Throw "IndexSizeError", tick st)
    else match imageDataThrows W (clock st) with
         | Some reason => (Throw reason, tick st)
         | None =>
             (Ok (PImageData (c_width cv) (c_height cv) (c_content cv)),
              tick st)
         end.

(** The branch [qrEngine instanceof Worker].  An exception of
    [getImageData] in the executor rejects the promise, after the
    listeners and the timer were set and before anything is posted. *)
Definition decodeWithWorker (options : Options) (gotExternalEngine : bool)
    (w : nat) (canvas : nat) (st : State) : option Outcome * State :=
  let st :=
    if gotExternalEngine then st
    else snd (_postWorkerMessageSync (Some (EWorker w)) "inversionMode"
                (PString "both") st) in
  let st := log (ETimer (deadline options)) st in
  match getImageData canvas st with
  | (Throw reason, st) => (Some (Rejected reason), st)
  | (Ok imageData, st) =>
      let '(id, st) :=
        _postWorkerMessageSync (Some (EWorker w)) "decode" imageData st in
      (settled (request id (channel W w id (deadline options))), st)
  end.

(** The options of the retry that leaves out the broken detector. *)
Definition retryWithoutDetector (options : Options) (canvas : nat) : Options :=
  {| scanRegion := scanRegion options;
     qrEngine := None;
     canvas := Some canvas;
     disallowCanvasResizing := disallowCanvasResizing options;
     alsoTryWithoutScanRegion := alsoTryWithoutScanRegion options;
     timeout := None |}.

(** The options of the retry without the scan region. *)
Definition retryWithoutRegion (options : Options) (locals : Locals) : Options :=
  {| scanRegion := None;
     qrEngine := l_qrEngine locals;
     canvas := l_canvas locals;
     disallowCanvasResizing := disallowCanvasResizing options;
     alsoTryWithoutScanRegion := false;
     timeout := None |}.

(** The other branch: the race of the timer with [detect].  A [detect]
    still pending at the deadline loses the race, and the model follows it
    no further.  The retry after a capability error runs inside the race:
    when it does not settle in time the race rejects with the timeout and
    the retry goes on in the background; the model records its effects
    before those of the rest of the scan. *)
Definition decodeWithDetector (self : Scan) (input : ImageSource)
    (options : Options) (d : nat) (canvas : nat) (st : State)
    : option (Outcome * State) :=
  let st := log (ETimer (deadline options)) st in
  let answer := detect W (clock st) d (deadline options) in
  let inTime := retryInTime W (clock st) (deadline options) in
  let st := tick (log (EDetect d canvas) st) in
  match answer with
  | Detected results =>
      Some (Resolved {| data := match results with
                                | scanResult :: _ => rawValue scanResult
                                | [] => NO_QR_CODE_FOUND
                                end |}, st)
  | DetectFailed e =>
      let errorMessage := thrownMessage e in
      if isCapabilityError errorMessage then
        match self input (retryWithoutDetector options canvas)
                (log ERetryWithoutDetector
                   (set_disableBarcodeDetector true st)) with
        | Some (retried, st') =>
            Some (if inTime then retried
                  else Rejected "Scanner error: timeout", st')
        | None => None
        end
      else Some (Rejected ("Scanner error: " +:+ errorMessage), st)
  | DetectPending => Some (Rejected "Scanner error: timeout", st)
  end.

(** The try block of [scanImage]. *)
Definition tryBlock (self : Scan) (input : ImageSource) (options : Options)
    (st : State) : option (Outcome * Locals * State) :=
  let gotExternalEngine := is_some (qrEngine options) in
  match acquire input (qrEngine options) st with
  | (Throw e, st) =>
      Some (Rejected e,
            {| l_qrEngine := qrEngine options; l_canvas := canvas options |},
            st)
  | (Ok (engine, image), st) =>
      let '(c, st) :=
        _drawToCanvas image (scanRegion options) (canvas options)
          (disallowCanvasResizing options) st in
      let locals :=
        {| l_qrEngine := Some (ArgEngine engine); l_canvas := Some c |} in
      match engine with
      | EWorker w =>
          match decodeWithWorker options gotExternalEngine w c st with
          | (Some o, st) => Some (o, locals, st)
          | (None, _) => None
          end
      | EBarcodeDetector d =>
          match decodeWithDetector self input options d c st with
          | Some (o, st) => Some (o, locals, st)
          | None => None
          end
      end
  end.

(** The finally block. *)
Definition cleanup (gotExternalEngine : bool) (locals : Locals) (st : State)
    : State :=
  if gotExternalEngine then st
  else _postWorkerMessage (l_qrEngine locals) "close" PNone st.

(** One call of [scanImage], its recursive calls going to [self]. *)
Definition scanBody (self : Scan) : Scan :=
  fun input options st =>
    let gotExternalEngine := is_some (qrEngine options) in
    match tryBlock self input options st with
    | None => None
    | Some (Resolved r, locals, st) =>
        Some (Resolved r, cleanup gotExternalEngine locals st)
    | Some (Rejected e, locals, st) =>
        if negb (is_some (scanRegion options))
           || negb (alsoTryWithoutScanRegion options)
        then Some (Rejected e, cleanup gotExternalEngine locals st)
        else
          match self input (retryWithoutRegion options locals)
                  (log ERetryWithoutRegion st) with
          | Some (o, st) => Some (o, cleanup gotExternalEngine locals st)
          | None => None
          end
    end.

(** [scanImage], [fuel] bounding the depth of its recursion. *)
Fixpoint scanImage (fuel : nat) : Scan :=
  match fuel with
  | O => fun _ _ _ => None
  | S fuel => scanBody (scanImage fuel)
  end.

End QrScanner.

(** ** Observations *)

(** The correlation ids of the messages posted, most recent first. *)
Fixpoint post_ids (tr : list Effect) : list Z :=
  match tr with
  | [] => []
  | EPost _ id _ _ :: tr => id :: post_ids tr
  | _ :: tr => post_ids tr
  end.

(** Every id posted is above all the ids posted before it, and below the
    counter. *)
Definition ids_increasing (st : State) : Prop :=
  StronglySorted Z.gt (post_ids (trace st))
  /\ Forall (fun id => id < _workerMessageId st) (post_ids (trace st)).

(** The effects that touch neither the two static fields, nor the channel,
    nor the control flow of [scanImage]. *)
Definition quiet (ev : Effect) : bool :=
  match ev with
  | ECreateWorker _ | ENewDetector _ | EDetect _ _
  | ECreateObjectURL _ | ERevokeObjectURL _
  | ESetWidth _ _ | ESetHeight _ _ => true
  | _ => false
  end.

(** [st'] comes from [st] by quiet effects only. *)
Definition frame (st st' : State) : Prop :=
  _disableBarcodeDetector st' = _disableBarcodeDetector st
  /\ _workerMessageId st' = _workerMessageId st
  /\ exists new, trace st' = new ++ trace st
               /\ Forall (fun ev => quiet ev = true) new.

(** All the effects since the trace was [tr0] satisfy [Q]. *)
Definition since (tr0 : list Effect) (Q : Effect -> Prop) (st : State) : Prop :=
  exists new, trace st = new ++ tr0 /\ Forall Q new.


Definition no_region_retry (ev : Effect) : Prop := ev <> ERetryWithoutRegion.

(** An event that leaves the request with id [id] pending: a message that
    bears another id. *)
Definition unmatched (id : Z) (ev : ChannelEvent) : Prop :=
  match ev with
  | MessageEvent id' _ => id' <> id
  | ErrorEvent _ => False
  end.

(** The options make [scanImage] retry without the region when it fails. *)
Definition fallsBack (options : Options) : bool :=
  is_some (scanRegion options) && alsoTryWithoutScanRegion options.

(** A call that cannot reach a detector: it is given a worker (or a promise
    that rejects), or it selects its engine with the detector disabled. *)
Definition workerBound (options : Options) (st : State) : Prop :=
  match qrEngine options with
  | Some (ArgEngine (EBarcodeDetector _)) => False
  | Some _ => True
  | None => _disableBarcodeDetector st = true
  end.

(** [self] preserves [Inv] on the calls whose options satisfy [P]. *)
Definition preserving (P : Options -> Prop) (Inv : State -> Prop)
    (self : Scan) : Prop :=
  forall input o st r st',
    P o -> Inv st -> self input o st = Some (r, st') -> Inv st'.

(** [self'] returns whatever [self] returns. *)
Definition extends (self self' : Scan) : Prop :=
  forall input o st r, self input o st = Some r -> self' input o st = Some r.

(** A request that is not settled still has its timer. *)
Definition armed (p : Pending) : Prop := settled p = None -> timer p = true.

(** ** Environments and inputs of the examples *)

Definition noOptions : Options :=
  {| scanRegion := None; qrEngine := None; canvas := None;
     disallowCanvasResizing := false; alsoTryWithoutScanRegion := false;
     timeout := None |}.

(** A browser without BarcodeDetector, whose worker answers every decode
    request with the text HELLO after a stale message. *)
Definition workerWorld : World :=
  {| barcodeDetectorInWindow := false;
     hasGetSupportedFormats := false;
     getSupportedFormats := inr [];
     userAgentData := None;
     importWorker := fun _ => None;
     imageLoad := fun _ => LoadFired 100 80;
     channel := fun _ id _ =>
       [MessageEvent (id - 1) (Some "STALE"); MessageEvent id (Some "HELLO")];
     detect := fun _ _ _ => DetectPending;
     allRejectsWithEngine := fun _ => true;
     imageDataThrows := fun _ => None;
     retryInTime := fun _ _ => true |}.

(** The same browser with a worker that finds no code. *)
Definition blindWorkerWorld : World :=
  {| barcodeDetectorInWindow := false;
     hasGetSupportedFormats := false;
     getSupportedFormats := inr [];
     userAgentData := None;
     importWorker := fun _ => None;
     imageLoad := fun _ => LoadFired 100 80;
     channel := fun _ id _ => [MessageEvent id None];
     detect := fun _ _ _ => DetectPending;
     allRejectsWithEngine := fun _ => true;
     imageDataThrows := fun _ => None;
     retryInTime := fun _ _ => true |}.

(** A worker whose script fails: the error event has no message. *)
Definition brokenWorkerWorld : World :=
  {| barcodeDetectorInWindow := false;
     hasGetSupportedFormats := false;
     getSupportedFormats := inr [];
     userAgentData := None;
     importWorker := fun _ => None;
     imageLoad := fun _ => LoadFired 100 80;
     channel := fun _ _ _ => [ErrorEvent (ErrEvent "Event" None)];
     detect := fun _ _ _ => DetectPending;
     allRejectsWithEngine := fun _ => true;
     imageDataThrows := fun _ => None;
     retryInTime := fun _ _ => true |}.

(** A browser with BarcodeDetector whose [detect] always answers [answer];
    its worker finds no code. *)
Definition detectorWorld (answer : DetectOutcome) : World :=
  {| barcodeDetectorInWindow := true;
     hasGetSupportedFormats := true;
     getSupportedFormats := inr ["qr_code"%string];
     userAgentData := None;
     importWorker := fun _ => None;
     imageLoad := fun _ => LoadFired 100 80;
     channel := fun _ id _ => [MessageEvent id None];
     detect := fun _ _ _ => answer;
     allRejectsWithEngine := fun _ => true;
     imageDataThrows := fun _ => None;
     retryInTime := fun _ _ => true |}.

(** Chromium on a Mac whose high-entropy query rejects. *)
Definition macWorld : World :=
  {| barcodeDetectorInWindow := true;
     hasGetSupportedFormats := true;
     getSupportedFormats := inr ["qr_code"%string];
     userAgentData :=
       Some {| platform := "macOS";
               brands := [ {| brand := "Chromium"; version := "120" |} ];
               getHighEntropyValues := ProbeRejects |};
     importWorker := fun _ => None;
     imageLoad := fun _ => LoadFired 100 80;
     channel := fun _ id _ => [MessageEvent id (Some "HELLO")];
     detect := fun _ _ _ => Detected [];
     allRejectsWithEngine := fun _ => true;
     imageDataThrows := fun _ => None;
     retryInTime := fun _ _ => true |}.

Definition wholeImage : ScanRegion :=
  {| sr_x := None; sr_y := None; sr_width := None; sr_height := None;
     sr_downScaledWidth := None; sr_downScaledHeight := None |}.

Definition topLeft : ScanRegion :=
  {| sr_x := Some 0; sr_y := Some 0; sr_width := Some 50; sr_height := Some 40;
     sr_downScaledWidth := Some 25; sr_downScaledHeight := None |}.

Definition withRegion (r : ScanRegion) (fallback : bool) (t : option Z)
    : Options :=
  {| scanRegion := Some r; qrEngine := None; canvas := None;
     disallowCanvasResizing := false; alsoTryWithoutScanRegion := fallback;
     timeout := t |}.

Definition photo : Image :=
  {| img_id := 7; img_width := 100; img_height := 80 |}.

(** [getImageData] returns on the canvas [c]: the canvas has a width and a
    height and the environment lets it be read. *)
Definition readable (W : World) (c : nat) (st : State) : Prop :=
  c_width (getCanvas c st) <> 0
  /\ c_height (getCanvas c st) <> 0
  /\ imageDataThrows W (clock st) = None.

(** A worker that finds no code in the first image it is sent (the request
    with id 1 of a fresh process) and HELLO in every other one: the code is
    outside the scan region. *)
Definition outsideRegionWorld : World :=
  {| barcodeDetectorInWindow := false;
     hasGetSupportedFormats := false;
     getSupportedFormats := inr [];
     userAgentData := None;
     importWorker := fun _ => None;
     imageLoad := fun _ => LoadFired 100 80;
     channel := fun _ id _ =>
       [MessageEvent id (if id =? 1 then None else Some "HELLO"%string)];
     detect := fun _ _ _ => DetectPending;
     allRejectsWithEngine := fun _ => true;
     imageDataThrows := fun _ => None;
     retryInTime := fun _ _ => true |}.

(** A worker that never answers the first request it is sent. *)
Definition silentFirstWorld : World :=
  {| barcodeDetectorInWindow := false;
     hasGetSupportedFormats := false;
     getSupportedFormats := inr [];
     userAgentData := None;
     importWorker := fun _ => None;
     imageLoad := fun _ => LoadFired 100 80;
     channel := fun _ id _ =>
       if id =? 1 then [] else [MessageEvent id (Some "HELLO"%string)];
     detect := fun _ _ _ => DetectPending;
     allRejectsWithEngine := fun _ => true;
     imageDataThrows := fun _ => None;
     retryInTime := fun _ _ => true |}.

(** A browser that does not let the canvas be read: the image is from
    another origin. *)
Definition taintedWorld : World :=
  {| barcodeDetectorInWindow := false;
     hasGetSupportedFormats := false;
     getSupportedFormats := inr [];
     userAgentData := None;
     importWorker := fun _ => None;
     imageLoad := fun _ => LoadFired 100 80;
     channel := fun _ id _ => [MessageEvent id (Some "HELLO"%string)];
     detect := fun _ _ _ => DetectPending;
     allRejectsWithEngine := fun _ => true;
     imageDataThrows := fun _ => Some "SecurityError"%string;
     retryInTime := fun _ _ => true |}.

(** A browser whose BarcodeDetector is not implemented and whose worker
    finds HELLO, but not before the deadline of the scan that started
    it. *)
Definition slowRetryWorld : World :=
  {| barcodeDetectorInWindow := true;
     hasGetSupportedFormats := true;
     getSupportedFormats := inr ["qr_code"%string];
     userAgentData := None;
     importWorker := fun _ => None;
     imageLoad := fun _ => LoadFired 100 80;
     channel := fun _ id _ => [MessageEvent id (Some "HELLO"%string)];
     detect := fun _ _ _ => DetectFailed (ThrownString "not implemented");
     allRejectsWithEngine := fun _ => true;
     imageDataThrows := fun _ => None;
     retryInTime := fun _ _ => false |}.

(** A browser whose BarcodeDetector is not implemented when first used and
    detects DETECTED afterwards; its worker finds HELLO. *)
Definition recoveringDetectorWorld : World :=
  {| barcodeDetectorInWindow := true;
     hasGetSupportedFormats := true;
     getSupportedFormats := inr ["qr_code"%string];
     userAgentData := None;
     importWorker := fun _ => None;
     imageLoad := fun _ => LoadFired 100 80;
     channel := fun _ id _ => [MessageEvent id (Some "HELLO"%string)];
     detect := fun now _ _ =>
       match now with
       | O => DetectFailed (ThrownString "not implemented")
       | S _ => Detected [ {| rawValue := "DETECTED"; cornerPoints := [] |} ]
       end;
     allRejectsWithEngine := fun _ => true;
     imageDataThrows := fun _ => None;
     retryInTime := fun _ _ => true |}.

(** [noOptions] with the engine [e] handed in. *)
Definition withEngine (e : Engine) : Options :=
  {| scanRegion := None; qrEngine := Some (ArgEngine e); canvas := None;
     disallowCanvasResizing := false; alsoTryWithoutScanRegion := false;
     timeout := None |}.

(** ** Further observations *)

(** The retries without the scan region recorded in a trace. *)
Fixpoint region_retries (tr : list Effect) : nat :=
  match tr with
  | [] => 0
  | ERetryWithoutRegion :: tr => S (region_retries tr)
  | _ :: tr => region_retries tr
  end.

(** At most [k] retries without the scan region since the trace was
    [tr0]. *)
Definition retries_within (tr0 : list Effect) (k : nat) (st : State) : Prop :=
  exists new, trace st = new ++ tr0 /\ (region_retries new <= k)%nat.

(** The messages posted, most recent first: worker, id and type. *)
Fixpoint posts (tr : list Effect) : list (nat * Z * string) :=
  match tr with
  | [] => []
  | EPost w id type _ :: tr => (w, id, type) :: posts tr
  | _ :: tr => posts tr
  end.

(** [k] decode requests to the worker [w] with the ids [n], [n + 1], ...,
    most recent first. *)
Fixpoint decodes (w : nat) (n : Z) (k : nat) : list (nat * Z * string) :=
  match k with
  | O => []
  | S k' => (w, n + Z.of_nat k', "decode"%string) :: decodes w n k'
  end.

(** [n - 1], ..., 1, 0. *)
Fixpoint count_down (n : nat) : list Z :=
  match n with
  | O => []
  | S k => Z.of_nat k :: count_down k
  end.

(** The ids posted so far are 0, 1, ... up to the counter, none left out. *)
Definition ids_gapless (st : State) : Prop :=
  exists n, _workerMessageId st = Z.of_nat n
            /\ post_ids (trace st) = count_down n.

(** A request that is over: settled, with no listener and no timer left. *)
Definition finished (p : Pending) : Prop :=
  messageListener p = false /\ errorListener p = false /\ timer p = false
  /\ is_Some (settled p).

(** A request as [request] first sees it, or a finished one. *)
Definition pristine_or_finished (p : Pending) : Prop :=
  (messageListener p = true /\ errorListener p = true /\ timer p = true
   /\ settled p = None)
  \/ finished p.

(** The object URLs created and not revoked, counted along a trace. *)
Fixpoint open_urls (tr : list Effect) : Z :=
  match tr with
  | [] => 0
  | ECreateObjectURL _ :: tr => open_urls tr + 1
  | ERevokeObjectURL _ :: tr => open_urls tr - 1
  | _ :: tr => open_urls tr
  end.

(** The input makes [_loadImage] wait for a load or error event. *)
Definition waitsForLoad (input : ImageSource) : bool :=
  match input with
  | SrcImage complete naturalWidth _ => negb (complete && negb (naturalWidth =? 0))
  | SrcBlob _ | SrcUrl _ => true
  | SrcDrawable _ | SrcUnsupported => false
  end.

(** Chromium on a Mac whose high-entropy query resolves with [answer]. *)
Definition macWorldWith (answer : Probe) : World :=
  {| barcodeDetectorInWindow := true;
     hasGetSupportedFormats := true;
     getSupportedFormats := inr ["qr_code"%string];
     userAgentData :=
       Some {| platform := "macOS";
               brands := [ {| brand := "Chromium"; version := "120" |} ];
               getHighEntropyValues := answer |};
     importWorker := fun _ => None;
     imageLoad := fun _ => LoadFired 100 80;
     channel := fun _ id _ => [MessageEvent id (Some "HELLO")];
     detect := fun _ _ _ => Detected [];
     allRejectsWithEngine := fun _ => true;
     imageDataThrows := fun _ => None;
     retryInTime := fun _ _ => true |}.

(** A browser in which every image ends its wait with a plain error
    event. *)
Definition brokenImageWorld : World :=
  {| barcodeDetectorInWindow := false;
     hasGetSupportedFormats := false;
     getSupportedFormats := inr [];
     userAgentData := None;
     importWorker := fun _ => None;
     imageLoad := fun _ => OtherEventFired;
     channel := fun _ id _ => [MessageEvent id None];
     detect := fun _ _ _ => DetectPending;
     allRejectsWithEngine := fun _ => true;
     imageDataThrows := fun _ => None;
     retryInTime := fun _ _ => true |}.

(** ** Frames: what selection, loading and drawing leave alone *)

Lemma frame_refl st : frame st st.
Proof. repeat split. exists []. by split. Qed.

Lemma frame_trans st1 st2 st3 : frame st1 st2 -> frame st2 st3 -> frame st1 st3.
Proof.
  intros (Hd1 & Hi1 & n1 & Ht1 & Hq1) (Hd2 & Hi2 & n2 & Ht2 & Hq2).
  split; [congruence|]. split; [congruence|].
  exists (n2 ++ n1). split.
  - by rewrite Ht2, Ht1, app_assoc.
  - by apply Forall_app.
Qed.

Lemma frame_log ev st : quiet ev = true -> frame st (log ev st).
Proof. intros Hq. repeat split. exists [ev]. split; [done|]. by constructor. Qed.

Lemma frame_tick st : frame st (tick st).
Proof. repeat split. exists []. by split. Qed.

Lemma frame_set_canvases cs st : frame st (set_canvases cs st).
Proof. repeat split. exists []. by split. Qed.

Lemma frame_set_workers n st : frame st (set_workers n st).
Proof. repeat split. exists []. by split. Qed.

Lemma frame_set_detectors n st : frame st (set_detectors n st).
Proof. repeat split. exists []. by split. Qed.

Ltac frame_steps :=
  repeat first
    [ apply frame_refl
    | eapply frame_trans;
      [| first [ apply frame_log; reflexivity | apply frame_tick
               | apply frame_set_canvases | apply frame_set_workers
               | apply frame_set_detectors ] ] ].

Section Frames.

Variable W : World.

Lemma createWorker_frame st r st' :
  createWorker W st = (r, st') -> frame st st'.
Proof.
  unfold createWorker. destruct (importWorker W (clock st)); intros [= <- <-].
  - apply frame_tick.
  - frame_steps.
Qed.

Lemma useBarcodeDetector_state st r st' :
  useBarcodeDetector W st = (r, st') -> st' = st.
Proof.
  unfold useBarcodeDetector.
  repeat case_match; by intros [= <- <-].
Qed.

Lemma createQrEngine_frame st r st' :
  createQrEngine W st = (r, st') -> frame st st'.
Proof.
  unfold createQrEngine, bind.
  destruct (useBarcodeDetector W st) as [[use|e] st1] eqn:Hu.
  - apply useBarcodeDetector_state in Hu as ->.
    destruct (negb use); [apply createWorker_frame|].
    destruct isChromiumOnMacWithArmVentura; [apply createWorker_frame|].
    intros [= <- <-]. frame_steps.
  - apply useBarcodeDetector_state in Hu as ->.
    intros [= <- <-]. apply frame_refl.
Qed.

Lemma _awaitImageLoad_frame complete naturalWidth image st r st' :
  _awaitImageLoad W complete naturalWidth image st = (r, st') -> frame st st'.
Proof.
  unfold _awaitImageLoad, ret.
  destruct (complete && negb (naturalWidth =? 0)).
  - intros [= <- <-]. apply frame_refl.
  - destruct (imageLoad W (clock st)); intros [= <- <-]; apply frame_tick.
Qed.

Lemma _loadImage_frame input st r st' :
  _loadImage W input st = (r, st') -> frame st st'.
Proof.
  destruct input as [complete nw img|img|blob|url|]; simpl.
  - apply _awaitImageLoad_frame.
  - intros [= <- <-]. apply frame_refl.
  - destruct (_awaitImageLoad W false 0 _ _) as [r1 st1] eqn:Ha.
    intros [= <- <-]. apply _awaitImageLoad_frame in Ha.
    eapply frame_trans; [|apply frame_log; reflexivity].
    eapply frame_trans; [|exact Ha]. by apply frame_log.
  - apply _awaitImageLoad_frame.
  - intros [= <- <-]. apply frame_refl.
Qed.

Lemma acquire_frame input q st r st' :
  acquire W input q st = (r, st') -> frame st st'.
Proof.
  unfold acquire.
  destruct (match q with
            | Some (ArgEngine e) => (Ok e, st)
            | Some (ArgRejects reason) => (Throw reason, st)
            | None => createQrEngine W st
            end) as [e st1] eqn:He.
  assert (frame st st1) as H1.
  { destruct q as [[?|?]|]; simplify_eq; try apply frame_refl.
    by eapply createQrEngine_frame. }
  destruct (_loadImage W input st1) as [i st2] eqn:Hi.
  apply _loadImage_frame in Hi.
  assert (frame st st2) by (by eapply frame_trans).
  destruct e, i; by intros [= <- <-].
Qed.

Lemma setWidth_frame c v st : frame st (setWidth c v st).
Proof. unfold setWidth. frame_steps. Qed.

Lemma setHeight_frame c v st : frame st (setHeight c v st).
Proof. unfold setHeight. frame_steps. Qed.

Lemma drawImage_frame c image sx sy sw sh st :
  frame st (drawImage c image sx sy sw sh st).
Proof. unfold drawImage. frame_steps. Qed.

Lemma resizeCanvas_frame image region c st :
  frame st (resizeCanvas image region c st).
Proof.
  unfold resizeCanvas.
  repeat case_match; frame_steps;
    repeat first [ apply frame_refl
                 | eapply frame_trans; [|apply setHeight_frame]
                 | eapply frame_trans; [|apply setWidth_frame] ].
Qed.

Lemma getImageData_state c st : snd (getImageData W c st) = tick st.
Proof. unfold getImageData. repeat case_match; done. Qed.

Lemma _drawToCanvas_frame image region canvas disallow st c st' :
  _drawToCanvas image region canvas disallow st = (c, st') -> frame st st'.
Proof.
  unfold _drawToCanvas.
  destruct (match canvas with
            | Some c0 => (c0, st)
            | None => createCanvas st
            end) as [c0 st0] eqn:Hc.
  assert (frame st st0) as H0.
  { destruct canvas; simplify_eq; [apply frame_refl|].
    unfold createCanvas in Hc. simplify_eq. apply frame_set_canvases. }
  intros [= <- <-].
  eapply frame_trans; [|apply drawImage_frame].
  destruct disallow; [done|].
  eapply frame_trans; [exact H0|apply resizeCanvas_frame].
Qed.

End Frames.

(** ** Invariants of a scan *)

(** A property of the process that the primitive steps of [scanImage]
    preserve is preserved by every call, whatever the environment answers.
    [P] restricts the options; the two retries must stay within it. *)
Section Preservation.

Variable W : World.
Variable P : Options -> Prop.
Variable Inv : State -> Prop.

Hypothesis P_detector : forall o c, P o -> P (retryWithoutDetector o c).
Hypothesis P_region : forall o l, P o -> P (retryWithoutRegion o l).
Hypothesis Inv_frame : forall st st', frame st st' -> Inv st -> Inv st'.
Hypothesis Inv_post : forall w type payload st,
  Inv st ->
  Inv (snd (_postWorkerMessageSync (Some (EWorker w)) type payload st)).
Hypothesis Inv_timer : forall o st,
  P o -> Inv st -> Inv (log (ETimer (deadline o)) st).
Hypothesis Inv_disable : forall st,
  Inv st -> Inv (log ERetryWithoutDetector (set_disableBarcodeDetector true st)).
Hypothesis Inv_region : forall o st,
  P o -> fallsBack o = true -> Inv st -> Inv (log ERetryWithoutRegion st).

Local Abbreviation preserving := (preserving P Inv).

Lemma decodeWithWorker_preserves o ext w c st r st' :
  P o -> Inv st ->
  decodeWithWorker W o ext w c st = (r, st') -> Inv st'.
Proof.
  intros HP HI Hd.
  replace st' with (snd (decodeWithWorker W o ext w c st)) by (by rewrite Hd).
  unfold decodeWithWorker.
  set (st1 := if ext then st else _).
  assert (Inv st1) as H1.
  { subst st1. destruct ext; [done|]. by apply Inv_post. }
  apply (Inv_timer o) in H1; [|done].
  apply (Inv_frame _ _ (frame_tick _)) in H1.
  pose proof (getImageData_state W c (log (ETimer (deadline o)) st1)) as Hg.
  destruct (getImageData W c (log (ETimer (deadline o)) st1)) as [[data|e] st2];
    simpl in Hg; subst st2; [|done].
  exact (Inv_post w "decode" _ _ H1).
Qed.

Lemma decodeWithDetector_preserves self input o d c st r st' :
  preserving self -> P o -> Inv st ->
  decodeWithDetector W self input o d c st = Some (r, st') -> Inv st'.
Proof.
  intros Hself HP HI. unfold decodeWithDetector.
  assert (Inv (tick (log (EDetect d c) (log (ETimer (deadline o)) st)))) as H1.
  { eapply Inv_frame; [|by apply Inv_timer].
    eapply frame_trans; [|apply frame_tick]. by apply frame_log. }
  destruct (detect W _ d (deadline o)) as [results|e|].
  - by intros [= _ <-].
  - destruct (isCapabilityError (thrownMessage e)).
    + destruct (self input _ _) as [[retried st2]|] eqn:Hr; [|done].
      intros [= _ <-]. eapply Hself; [|by apply Inv_disable|exact Hr].
      by apply P_detector.
    + by intros [= _ <-].
  - by intros [= _ <-].
Qed.

Lemma tryBlock_preserves self input o st r l st' :
  preserving self -> P o -> Inv st ->
  tryBlock W self input o st = Some (r, l, st') -> Inv st'.
Proof.
  intros Hself HP HI. unfold tryBlock.
  destruct (acquire W input (qrEngine o) st) as [[[engine image]|e] st1] eqn:Ha;
    apply acquire_frame in Ha; pose proof (Inv_frame _ _ Ha HI) as H1.
  - destruct (_drawToCanvas image (scanRegion o) (canvas o)
                (disallowCanvasResizing o) st1) as [c st2] eqn:Hd.
    apply _drawToCanvas_frame in Hd. pose proof (Inv_frame _ _ Hd H1) as H2.
    destruct engine as [w|d].
    + destruct (decodeWithWorker W o _ w c st2) as [[out|] st3] eqn:Hw; [|done].
      intros [= _ _ <-]. by eapply decodeWithWorker_preserves.
    + destruct (decodeWithDetector W self input o d c st2) as [[out st3]|] eqn:Hn;
        [|done].
      intros [= _ _ <-]. by eapply decodeWithDetector_preserves.
  - by intros [= _ _ <-].
Qed.

Lemma cleanup_preserves ext l st : Inv st -> Inv (cleanup ext l st).
Proof.
  intros HI. unfold cleanup, _postWorkerMessage.
  destruct ext; [done|].
  destruct (l_qrEngine l) as [[[w|d]|reason]|]; simpl; try done.
  by apply (Inv_post w "close" PNone).
Qed.

Lemma scanBody_preserves self :
  preserving self -> preserving (scanBody W self).
Proof.
  intros Hself input o st r st' HP HI. unfold scanBody.
  destruct (tryBlock W self input o st) as [[[out l] st1]|] eqn:Ht; [|done].
  apply tryBlock_preserves in Ht; [|done..].
  destruct out as [res|e].
  - intros [= _ <-]. by apply cleanup_preserves.
  - destruct (negb (is_some (scanRegion o)) || negb (alsoTryWithoutScanRegion o))
      eqn:Hfb.
    + intros [= _ <-]. by apply cleanup_preserves.
    + destruct (self input (retryWithoutRegion o l) (log ERetryWithoutRegion st1))
        as [[out st2]|] eqn:Hr; [|done].
      intros [= _ <-]. apply cleanup_preserves.
      eapply Hself; [|apply (Inv_region o)|exact Hr]; [by apply P_region|done| |done].
      unfold fallsBack.
      destruct (is_some (scanRegion o)), (alsoTryWithoutScanRegion o); done.
Qed.

Lemma scanImage_preserves fuel : preserving (scanImage W fuel).
Proof.
  induction fuel as [|fuel IH]; [by intros ? ? ? ? ? ? ?|].
  by apply scanBody_preserves.
Qed.

End Preservation.

(** *** The sticky flag and the correlation ids *)

Lemma scanImage_keeps_disabled W fuel input o st r st' :
  _disableBarcodeDetector st = true ->
  scanImage W fuel input o st = Some (r, st') ->
  _disableBarcodeDetector st' = true.
Proof.
  intros Hd Hs.
  refine (scanImage_preserves W (fun _ => True)
            (fun s => _disableBarcodeDetector s = true)
            _ _ _ _ _ _ _ fuel input o st r st' I Hd Hs); try done.
  intros s s' (Hf & _) Hs'. by rewrite Hf.
Qed.

Lemma post_ids_app tr1 tr2 : post_ids (tr1 ++ tr2) = post_ids tr1 ++ post_ids tr2.
Proof.
  induction tr1 as [|ev tr1 IH]; [done|].
  destruct ev; simpl; by rewrite ?IH.
Qed.

Lemma post_ids_quiet tr : Forall (fun ev => quiet ev = true) tr -> post_ids tr = [].
Proof.
  induction 1 as [|ev tr Hq _ IH]; [done|].
  by destruct ev.
Qed.

Lemma ids_increasing_frame st st' :
  frame st st' -> ids_increasing st -> ids_increasing st'.
Proof.
  intros (_ & Hi & new & Ht & Hq). unfold ids_increasing.
  by rewrite Ht, post_ids_app, (post_ids_quiet _ Hq), Hi.
Qed.

Lemma ids_increasing_post w type payload st :
  ids_increasing st ->
  ids_increasing (snd (_postWorkerMessageSync (Some (EWorker w)) type payload st)).
Proof.
  intros [Hs Hb]. split; simpl.
  - constructor; [done|].
    eapply Forall_impl; [exact Hb|]. simpl. lia.
  - constructor; [lia|].
    eapply Forall_impl; [exact Hb|]. simpl. lia.
Qed.

Lemma scanImage_ids_increasing W fuel input o st r st' :
  ids_increasing st ->
  scanImage W fuel input o st = Some (r, st') ->
  ids_increasing st'.
Proof.
  intros Hi Hs.
  refine (scanImage_preserves W (fun _ => True) ids_increasing
            _ _ _ _ _ _ _ fuel input o st r st' I Hi Hs); try done.
  - apply ids_increasing_frame.
  - intros. by apply ids_increasing_post.
Qed.

(** *** Effects since the call *)

Lemma since_refl Q st : since (trace st) Q st.
Proof. exists []. by split. Qed.

Lemma since_log (Q : Effect -> Prop) tr0 ev st :
  Q ev -> since tr0 Q st -> since tr0 Q (log ev st).
Proof.
  intros Hq (new & Ht & Hn). exists (ev :: new). split.
  - simpl. by rewrite Ht.
  - by constructor.
Qed.

Lemma since_frame (Q : Effect -> Prop) tr0 st st' :
  (forall ev, quiet ev = true -> Q ev) ->
  frame st st' -> since tr0 Q st -> since tr0 Q st'.
Proof.
  intros HQ (_ & _ & n1 & Ht1 & Hq1) (new & Ht & Hn). exists (n1 ++ new). split.
  - by rewrite Ht1, Ht, app_assoc.
  - apply Forall_app. split; [|done].
    eapply Forall_impl; [exact Hq1|]. apply HQ.
Qed.

Lemma scanImage_since W (P : Options -> Prop) (Q : Effect -> Prop) :
  (forall o c, P o -> P (retryWithoutDetector o c)) ->
  (forall o l, P o -> P (retryWithoutRegion o l)) ->
  (forall ev, quiet ev = true -> Q ev) ->
  (forall w id type payload, Q (EPost w id type payload)) ->
  (forall o, P o -> Q (ETimer (deadline o))) ->
  Q ERetryWithoutDetector ->
  (forall o, P o -> fallsBack o = true -> Q ERetryWithoutRegion) ->
  forall fuel input o st r st',
    P o -> scanImage W fuel input o st = Some (r, st') -> since (trace st) Q st'.
Proof.
  intros Hd Hr Hquiet Hpost Htimer Hdis Hreg fuel input o st r st' HP Hs.
  refine (scanImage_preserves W P (since (trace st) Q)
            Hd Hr _ _ _ _ _ fuel input o st r st' HP (since_refl Q st) Hs).
  - intros s s'. by apply since_frame.
  - intros w type payload s Hi. simpl. apply since_log; [apply Hpost|].
    destruct Hi as (new & Ht & Hn). by exists new.
  - intros o' s HP' Hi. apply since_log; [by apply Htimer|done].
  - intros s Hi. apply since_log; [done|].
    destruct Hi as (new & Ht & Hn). by exists new.
  - intros o' s HP' Hf Hi. apply since_log; [by eapply Hreg|done].
Qed.

(** *** Every call returns, the waits on the environment ending *)

Lemma settle_settled o p : is_Some (settled (settle o p)).
Proof. unfold settle. destruct (settled p) eqn:Hs; simpl; rewrite ?Hs; eauto. Qed.

Lemma dispatch_armed p ev : armed p -> armed (dispatch p ev).
Proof.
  intros Ha. unfold dispatch, onMessage, onError.
  repeat case_match; try done;
    intros Hn;
    match type of Hn with
    | settled (settle ?o ?q) = None =>
        destruct (settle_settled o q) as [? ?]; congruence
    end.
Qed.

Lemma fold_dispatch_armed evs p : armed p -> armed (fold_left dispatch evs p).
Proof.
  revert p. induction evs as [|ev evs IH]; intros p Ha; [done|].
  simpl. by apply IH, dispatch_armed.
Qed.

Lemma request_settles id evs : is_Some (settled (request id evs)).
Proof.
  unfold request, fireTimer.
  pose proof (fold_dispatch_armed evs (pending id) (fun _ => eq_refl)) as Ha.
  destruct (timer _) eqn:Ht; [apply settle_settled|].
  destruct (settled _) eqn:Hs; [eauto|].
  specialize (Ha Hs). congruence.
Qed.

Section Returns.

Variable W : World.

Lemma createQrEngine_disabled st :
  _disableBarcodeDetector st = true -> createQrEngine W st = createWorker W st.
Proof.
  intros Hd. unfold createQrEngine, bind, useBarcodeDetector. by rewrite Hd.
Qed.

Lemma createWorker_worker st e st' :
  createWorker W st = (Ok e, st') -> e = EWorker (workers st).
Proof.
  unfold createWorker. destruct (importWorker W (clock st)); by intros [= <- <-].
Qed.

Lemma acquire_workerBound input o st e image st' :
  workerBound o st ->
  acquire W input (qrEngine o) st = (Ok (e, image), st') ->
  exists w, e = EWorker w.
Proof.
  unfold workerBound, acquire. intros Hb.
  destruct (qrEngine o) as [[[w|d]|reason]|]; try done.
  - destruct (_loadImage W input st) as [[i|r] st2]; intros [= <- <- <-]. eauto.
  - destruct (_loadImage W input st) as [[i|r] st2]; by intros [=].
  - rewrite (createQrEngine_disabled st Hb).
    destruct (createWorker W st) as [[e1|r1] st1] eqn:Hc;
      destruct (_loadImage W input st1) as [[i|r] st2]; intros [= <- <- <-].
    apply createWorker_worker in Hc. eauto.
Qed.

Lemma decodeWithWorker_settles o ext w c st :
  is_Some (fst (decodeWithWorker W o ext w c st)).
Proof.
  unfold decodeWithWorker.
  destruct (getImageData W c _) as [[data|e] st1]; simpl; [|eauto].
  apply request_settles.
Qed.

Lemma tryBlock_workerBound self input o st :
  workerBound o st ->
  exists r l st',
    tryBlock W self input o st = Some (r, l, st')
    /\ workerBound (retryWithoutRegion o l) (log ERetryWithoutRegion st').
Proof.
  intros Hb. unfold tryBlock.
  destruct (acquire W input (qrEngine o) st) as [[[engine image]|e] st1] eqn:Ha.
  - destruct (acquire_workerBound _ _ _ _ _ _ Hb Ha) as [w ->].
    destruct (_drawToCanvas image (scanRegion o) (canvas o)
                (disallowCanvasResizing o) st1) as [c st2].
    pose proof (decodeWithWorker_settles o (is_some (qrEngine o)) w c st2) as [out Ho].
    destruct (decodeWithWorker W o _ w c st2) as [out' st3]. simpl in Ho. subst out'.
    by eexists _, _, _.
  - eexists _, _, _. split; [done|].
    apply acquire_frame in Ha as [Hf _].
    unfold workerBound in *. simpl.
    destruct (qrEngine o) as [[[w|d]|reason]|]; try done. congruence.
Qed.

Lemma tryBlock_returns self input o st :
  (forall c st', _disableBarcodeDetector st' = true ->
     is_Some (self input (retryWithoutDetector o c) st')) ->
  is_Some (tryBlock W self input o st).
Proof.
  intros Hself. unfold tryBlock.
  destruct (acquire W input (qrEngine o) st) as [[[engine image]|e] st1]; [|eauto].
  destruct (_drawToCanvas image (scanRegion o) (canvas o)
              (disallowCanvasResizing o) st1) as [c st2].
  destruct engine as [w|d].
  - pose proof (decodeWithWorker_settles o (is_some (qrEngine o)) w c st2) as [out Ho].
    destruct (decodeWithWorker W o _ w c st2) as [out' st3]. simpl in Ho. subst out'.
    eauto.
  - unfold decodeWithDetector.
    destruct (detect W _ d (deadline o)) as [results|e|]; [eauto| |eauto].
    destruct (isCapabilityError (thrownMessage e)); [|eauto].
    edestruct (Hself c) as [[out st3] ->]; [|eauto]. done.
Qed.

Lemma scanBody_returns_leaf self input o st :
  workerBound o st -> fallsBack o = false ->
  is_Some (scanBody W self input o st).
Proof.
  intros Hb Hf. unfold scanBody.
  destruct (tryBlock_workerBound self input o st Hb) as (r & l & st' & -> & _).
  unfold fallsBack in Hf.
  destruct r; [eauto|].
  destruct (is_some (scanRegion o)), (alsoTryWithoutScanRegion o); simpl; eauto.
  done.
Qed.

Lemma scanBody_returns_worker self input o st :
  (forall i o' s, workerBound o' s -> fallsBack o' = false ->
     is_Some (self i o' s)) ->
  workerBound o st ->
  is_Some (scanBody W self input o st).
Proof.
  intros Hself Hb. unfold scanBody.
  destruct (tryBlock_workerBound self input o st Hb) as (r & l & st' & -> & Hb').
  destruct r; [eauto|].
  destruct (negb (is_some (scanRegion o)) || negb (alsoTryWithoutScanRegion o));
    [eauto|].
  edestruct (Hself input (retryWithoutRegion o l)) as [[out st2] ->]; eauto.
Qed.

Lemma scanBody_returns_flat self input o st :
  (forall i o' s, workerBound o' s -> fallsBack o' = false ->
     is_Some (self i o' s)) ->
  fallsBack o = false ->
  is_Some (scanBody W self input o st).
Proof.
  intros Hself Hf. unfold scanBody.
  destruct (tryBlock_returns self input o st) as [[[r l] st'] ->].
  { intros c st' Hd. by apply Hself. }
  unfold fallsBack in Hf.
  destruct r; [eauto|].
  destruct (is_some (scanRegion o)), (alsoTryWithoutScanRegion o); simpl; eauto.
  done.
Qed.

Lemma scanBody_returns self input o st :
  (forall i o' s, workerBound o' s -> is_Some (self i o' s)) ->
  (forall i o' s, fallsBack o' = false -> is_Some (self i o' s)) ->
  is_Some (scanBody W self input o st).
Proof.
  intros Hworker Hflat. unfold scanBody.
  destruct (tryBlock_returns self input o st) as [[[r l] st'] ->].
  { intros c st' Hd. by apply Hworker. }
  destruct r; [eauto|].
  destruct (negb (is_some (scanRegion o)) || negb (alsoTryWithoutScanRegion o));
    [eauto|].
  edestruct (Hflat input (retryWithoutRegion o l)) as [[out st2] ->]; eauto.
Qed.

(** Three nested calls are the most a scan makes. *)
Lemma scanImage_returns n input o st :
  is_Some (scanImage W (S (S (S n))) input o st).
Proof.
  apply scanBody_returns.
  - intros i o' s Hb. apply scanBody_returns_worker; [|done].
    intros i' o'' s' Hb' Hf'. by apply scanBody_returns_leaf.
  - intros i o' s Hf. apply scanBody_returns_flat; [|done].
    intros i' o'' s' Hb' Hf'. by apply scanBody_returns_leaf.
Qed.

(** More fuel does not change what a call returns. *)
Lemma tryBlock_extends self self' input o st r :
  extends self self' ->
  tryBlock W self input o st = Some r -> tryBlock W self' input o st = Some r.
Proof.
  intros He. unfold tryBlock.
  destruct (acquire W input (qrEngine o) st) as [[[engine image]|e] st1]; [|done].
  destruct (_drawToCanvas image (scanRegion o) (canvas o)
              (disallowCanvasResizing o) st1) as [c st2].
  destruct engine as [w|d]; [done|].
  unfold decodeWithDetector.
  destruct (detect W _ d (deadline o)) as [results|e|]; [done| |done].
  destruct (isCapabilityError (thrownMessage e)); [|done].
  destruct (self input _ _) as [[out st3]|] eqn:Hs; [|done].
  by rewrite (He _ _ _ _ Hs).
Qed.

Lemma scanBody_extends self self' :
  extends self self' -> extends (scanBody W self) (scanBody W self').
Proof.
  intros He input o st r. unfold scanBody.
  destruct (tryBlock W self input o st) as [[[out l] st1]|] eqn:Ht; [|done].
  rewrite (tryBlock_extends _ _ _ _ _ _ He Ht).
  destruct out; [done|].
  destruct (negb (is_some (scanRegion o)) || negb (alsoTryWithoutScanRegion o));
    [done|].
  destruct (self input _ _) as [[out st2]|] eqn:Hs; [|done].
  by rewrite (He _ _ _ _ Hs).
Qed.

Lemma scanImage_extends n m :
  (n <= m)%nat -> extends (scanImage W n) (scanImage W m).
Proof.
  revert m. induction n as [|n IH]; intros m Hle; [by intros ? ? ? ?|].
  destruct m as [|m]; [lia|].
  apply scanBody_extends, IH. lia.
Qed.

Lemma scanImage_fuel n input o st :
  scanImage W (S (S (S n))) input o st = scanImage W 3 input o st.
Proof.
  destruct (scanImage_returns 0 input o st) as [r Hr].
  rewrite Hr. eapply scanImage_extends; [|exact Hr]. lia.
Qed.

End Returns.

(** ** The worker request *)

Lemma dispatch_stale p id payload :
  id <> expectedResponseId p -> dispatch p (MessageEvent id payload) = p.
Proof.
  intros Hne. unfold dispatch, onMessage.
  destruct (messageListener p); [|done].
  by destruct (Z.eqb_spec id (expectedResponseId p)).
Qed.

Lemma fold_dispatch_unmatched evs id :
  Forall (unmatched id) evs -> fold_left dispatch evs (pending id) = pending id.
Proof.
  induction 1 as [|ev evs Hu _ IH]; [done|].
  simpl. destruct ev as [id' payload|err]; [|done].
  by rewrite dispatch_stale.
Qed.

Lemma fold_dispatch_torn_down evs p :
  messageListener p = false -> errorListener p = false ->
  fold_left dispatch evs p = p.
Proof.
  intros Hm He. induction evs as [|ev evs IH]; [done|].
  simpl. destruct ev; simpl; by rewrite ?Hm, ?He.
Qed.

Lemma settle_listeners o p :
  messageListener (settle o p) = messageListener p
  /\ errorListener (settle o p) = errorListener p
  /\ timer (settle o p) = timer p.
Proof. unfold settle. by destruct (settled p). Qed.

Lemma request_timeout id evs :
  Forall (unmatched id) evs ->
  request id evs = onError (ErrString "timeout") (pending id).
Proof. intros Hu. unfold request. by rewrite fold_dispatch_unmatched. Qed.

Lemma request_message id pre payload post :
  Forall (unmatched id) pre ->
  request id (pre ++ MessageEvent id payload :: post)
  = onMessage id payload (pending id).
Proof.
  intros Hu. unfold request.
  rewrite fold_left_app, fold_dispatch_unmatched by done. simpl.
  assert (messageListener (onMessage id payload (pending id)) = false
          /\ errorListener (onMessage id payload (pending id)) = false
          /\ timer (onMessage id payload (pending id)) = false) as (Hm & He & Ht).
  { unfold onMessage. simpl. rewrite Z.eqb_refl. simpl. by destruct payload. }
  rewrite fold_dispatch_torn_down by done.
  unfold fireTimer. by rewrite Ht.
Qed.

Lemma request_error id pre err post :
  Forall (unmatched id) pre ->
  request id (pre ++ ErrorEvent err :: post) = onError err (pending id).
Proof.
  intros Hu. unfold request.
  rewrite fold_left_app, fold_dispatch_unmatched by done. simpl.
  by rewrite fold_dispatch_torn_down.
Qed.

(** ** Unfolding the try block *)

Section TryBlock.

Variable W : World.

Lemma getImageData_readable c st :
  readable W c st ->
  getImageData W c st
  = (Ok (PImageData (c_width (getCanvas c st)) (c_height (getCanvas c st))
           (c_content (getCanvas c st))),
     tick st).
Proof.
  intros (Hw & Hh & Ht). unfold getImageData. rewrite Ht.
  destruct (Z.eqb_spec (c_width (getCanvas c st)) 0); [done|].
  by destruct (Z.eqb_spec (c_height (getCanvas c st)) 0).
Qed.


(** [getImageData] sees the canvas and the clock the drawing left. *)
Lemma readable_at_decode o (ext : bool) w c st :
  readable W c st <->
  readable W c
    (log (ETimer (deadline o))
       (if ext then st
        else snd (_postWorkerMessageSync (Some (EWorker w)) "inversionMode"
                    (PString "both") st))).
Proof. by destruct ext. Qed.

Lemma decodeWithWorker_outcome o ext w c st :
  readable W c st ->
  fst (decodeWithWorker W o ext w c st)
  = settled (request (_workerMessageId st + (if ext then 0 else 1))
               (channel W w (_workerMessageId st + (if ext then 0 else 1))
                  (deadline o))).
Proof.
  intros Hr. unfold decodeWithWorker.
  apply (readable_at_decode o ext w) in Hr.
  rewrite (getImageData_readable _ _ Hr).
  destruct ext; simpl; by rewrite ?Z.add_0_r.
Qed.

Lemma decodeWithWorker_timer o ext w c st :
  In (ETimer (deadline o)) (trace (snd (decodeWithWorker W o ext w c st))).
Proof.
  unfold decodeWithWorker.
  pose proof (getImageData_state W c
                (log (ETimer (deadline o))
                   (if ext then st
                    else snd (_postWorkerMessageSync (Some (EWorker w))
                                "inversionMode" (PString "both") st)))) as Hs.
  destruct (getImageData W c _) as [[data|e] st1]; simpl in Hs; subst st1; simpl.
  - right. by left.
  - by left.
Qed.

Lemma _drawToCanvas_clock image region canvas disallow st :
  clock (snd (_drawToCanvas image region canvas disallow st)) = clock st.
Proof.
  unfold _drawToCanvas, resizeCanvas, createCanvas.
  destruct canvas; simpl; repeat case_match; done.
Qed.

Lemma tryBlock_worker self input o st w image st1 c st2 :
  acquire W input (qrEngine o) st = (Ok (EWorker w, image), st1) ->
  _drawToCanvas image (scanRegion o) (canvas o) (disallowCanvasResizing o) st1
    = (c, st2) ->
  tryBlock W self input o st
  = match decodeWithWorker W o (is_some (qrEngine o)) w c st2 with
    | (Some out, st3) =>
        Some (out,
              {| l_qrEngine := Some (ArgEngine (EWorker w)); l_canvas := Some c |},
              st3)
    | (None, _) => None
    end.
Proof. intros Ha Hd. unfold tryBlock. by rewrite Ha, Hd. Qed.

Lemma tryBlock_detector self input o st d image st1 c st2 :
  acquire W input (qrEngine o) st = (Ok (EBarcodeDetector d, image), st1) ->
  _drawToCanvas image (scanRegion o) (canvas o) (disallowCanvasResizing o) st1
    = (c, st2) ->
  tryBlock W self input o st
  = match decodeWithDetector W self input o d c st2 with
    | Some (out, st3) =>
        Some (out,
              {| l_qrEngine := Some (ArgEngine (EBarcodeDetector d));
                 l_canvas := Some c |},
              st3)
    | None => None
    end.
Proof. intros Ha Hd. unfold tryBlock. by rewrite Ha, Hd. Qed.

(** The id the decode request of a worker scan gets. *)
Lemma tryBlock_worker_outcome self input o st w image st1 c st2 out :
  acquire W input (qrEngine o) st = (Ok (EWorker w, image), st1) ->
  _drawToCanvas image (scanRegion o) (canvas o) (disallowCanvasResizing o) st1
  = (c, st2) ->
  readable W c st2 ->
  settled (request (_workerMessageId st + (if is_some (qrEngine o) then 0 else 1))
             (channel W w
                (_workerMessageId st + (if is_some (qrEngine o) then 0 else 1))
                (deadline o)))
  = Some out ->
  exists l st3,
    tryBlock W self input o st = Some (out, l, st3)
    /\ In (ETimer (deadline o)) (trace st3).
Proof.
  intros Ha Hd Hc Hr.
  rewrite (tryBlock_worker self _ _ _ _ _ _ _ _ Ha Hd).
  pose proof (decodeWithWorker_outcome o (is_some (qrEngine o)) w c st2 Hc) as Ho.
  pose proof (decodeWithWorker_timer o (is_some (qrEngine o)) w c st2) as Ht.
  apply acquire_frame in Ha as (_ & Hi1 & _).
  apply _drawToCanvas_frame in Hd as (_ & Hi2 & _).
  rewrite Hi2, Hi1, Hr in Ho.
  destruct (decodeWithWorker W o _ w c st2) as [out' st3].
  simpl in Ho, Ht. subst out'. by eexists _, _.
Qed.

(** A scan whose try block resolves, or rejects with no fallback to make,
    settles the same way. *)
Lemma scanBody_resolved self input o st r l st1 :
  tryBlock W self input o st = Some (Resolved r, l, st1) ->
  scanBody W self input o st
  = Some (Resolved r, cleanup (is_some (qrEngine o)) l st1).
Proof. intros Ht. unfold scanBody. by rewrite Ht. Qed.

Lemma scanBody_rejected self input o st e l st1 :
  tryBlock W self input o st = Some (Rejected e, l, st1) ->
  fallsBack o = false ->
  scanBody W self input o st
  = Some (Rejected e, cleanup (is_some (qrEngine o)) l st1).
Proof.
  intros Ht Hf. unfold scanBody. rewrite Ht.
  unfold fallsBack in Hf.
  by destruct (is_some (scanRegion o)), (alsoTryWithoutScanRegion o).
Qed.

Lemma scanBody_retries self input o st e l st1 :
  tryBlock W self input o st = Some (Rejected e, l, st1) ->
  fallsBack o = true ->
  scanBody W self input o st
  = match self input (retryWithoutRegion o l) (log ERetryWithoutRegion st1) with
    | Some (out, st2) => Some (out, cleanup (is_some (qrEngine o)) l st2)
    | None => None
    end.
Proof.
  intros Ht Hf. unfold scanBody. rewrite Ht.
  unfold fallsBack in Hf.
  by destruct (is_some (scanRegion o)), (alsoTryWithoutScanRegion o).
Qed.

End TryBlock.

(** ** The worker path *)

(** C2.  On the worker path, the response that bears the id of the pending
    decode request decides the result of the scan attempt: the listeners
    and the timer are removed, the request resolves with [{data}] when the
    data field is not null and rejects with the string "No QR code found"
    when it is.  The scan resolves with [{data}] in the first case.  In the
    second it rejects with that string unless [scanRegion] is set and
    [alsoTryWithoutScanRegion] is true: then it retries without the region
    and settles as the retry does. *)
Theorem worker_response_decides_result
    W fuel input o st w image st1 c st2 pre payload post :
  let id := _workerMessageId st + (if is_some (qrEngine o) then 0 else 1) in
  let result := match payload with
                | Some d => Resolved {| data := d |}
                | None => Rejected "No QR code found"
                end in
  acquire W input (qrEngine o) st = (Ok (EWorker w, image), st1) ->
  _drawToCanvas image (scanRegion o) (canvas o) (disallowCanvasResizing o) st1
  = (c, st2) ->
  readable W c st2 ->
  channel W w id (deadline o) = pre ++ MessageEvent id payload :: post ->
  Forall (unmatched id) pre ->
  dispatch (pending id) (MessageEvent id payload)
    = {| expectedResponseId := id; messageListener := false;
         errorListener := false; timer := false; settled := Some result |}
  /\ (exists l st3,
        tryBlock W (scanImage W fuel) input o st = Some (result, l, st3)
        /\ (fallsBack o = true -> payload = None ->
            scanImage W (S fuel) input o st
            = match scanImage W fuel input (retryWithoutRegion o l)
                      (log ERetryWithoutRegion st3) with
              | Some (out, st4) =>
                  Some (out, cleanup (is_some (qrEngine o)) l st4)
              | None => None
              end))
  /\ (fallsBack o = false \/ payload <> None ->
      exists st3, scanImage W (S fuel) input o st = Some (result, st3)).
Proof.
  intros id result Ha Hdraw Hread Hc Hpre.
  assert (dispatch (pending id) (MessageEvent id payload)
          = {| expectedResponseId := id; messageListener := false;
               errorListener := false; timer := false;
               settled := Some result |}) as Hd.
  { unfold dispatch, onMessage. simpl. rewrite Z.eqb_refl. simpl.
    subst result. by destruct payload. }
  assert (settled (request id (channel W w id (deadline o))) = Some result) as Hr.
  { rewrite Hc, request_message by done.
    change (onMessage id payload (pending id))
      with (dispatch (pending id) (MessageEvent id payload)).
    by rewrite Hd. }
  destruct (tryBlock_worker_outcome W (scanImage W fuel) _ _ _ _ _ _ _ _ _
              Ha Hdraw Hread Hr) as (l & st3 & Ht & _).
  split; [done|]. split.
  - exists l, st3. split; [done|]. intros Hf ->. subst result.
    change (scanImage W (S fuel)) with (scanBody W (scanImage W fuel)).
    by rewrite (scanBody_retries _ _ _ _ _ _ _ _ Ht Hf).
  - intros Hcase. simpl.
    destruct payload as [d|]; subst result.
    + rewrite (scanBody_resolved _ _ _ _ _ _ _ _ Ht). eauto.
    + destruct Hcase as [Hf|Hn]; [|done].
      rewrite (scanBody_rejected _ _ _ _ _ _ _ _ Ht Hf). eauto.
Qed.

Lemma worker_response_decides_result_witness :
  exists st3,
    scanImage workerWorld 1 (SrcDrawable photo) noOptions initial
    = Some (Resolved {| data := "HELLO" |}, st3).
Proof.
  refine (proj2 (proj2
    (worker_response_decides_result workerWorld 0 (SrcDrawable photo) noOptions
       initial 0%nat photo _ _ _ [MessageEvent 0 (Some "STALE")] (Some "HELLO") []
       eq_refl eq_refl _ eq_refl _)) _).
  - repeat split; vm_compute; congruence.
  - repeat constructor. simpl. lia.
  - right. discriminate.
Defined.

(** The claim as first worded fails: the response that matches the pending
    request has a null data field, and the scan resolves, because its
    options ask for the retry without the scan region. *)
Lemma null_response_then_retry_resolves :
  let o := withRegion topLeft true None in
  channel outsideRegionWorld 0 1 (deadline o) = [MessageEvent 1 None]
  /\ exists st,
       scanImage outsideRegionWorld 2 (SrcDrawable photo) o initial
       = Some (Resolved {| data := "HELLO" |}, st)
       /\ posts (trace st)
          = [(0%nat, 3, "close"); (0%nat, 2, "decode"); (0%nat, 1, "decode");
             (0%nat, 0, "inversionMode")]%string.
Proof. split; [done|]. eexists. split; vm_compute; reflexivity. Qed.

(** ** The detector path *)

(** C3.  On the detector path, a [detect] that succeeds with no detection
    makes the scan resolve, not reject, with [{data: 'No QR code found'}]. *)
Theorem detector_without_detection_resolves W fuel input o st d image st1 :
  acquire W input (qrEngine o) st = (Ok (EBarcodeDetector d, image), st1) ->
  detect W (clock st1) d (deadline o) = Detected [] ->
  exists st2,
    scanImage W (S fuel) input o st
    = Some (Resolved {| data := "No QR code found" |}, st2).
Proof.
  intros Ha Hdet.
  destruct (_drawToCanvas image (scanRegion o) (canvas o)
              (disallowCanvasResizing o) st1) as [c st2] eqn:Hd.
  pose proof (tryBlock_detector W (scanImage W fuel) _ _ _ _ _ _ _ _ Ha Hd) as Ht.
  unfold decodeWithDetector in Ht. simpl in Ht.
  replace (clock st2) with (clock st1) in Ht
    by (by rewrite <- (_drawToCanvas_clock image (scanRegion o) (canvas o)
                         (disallowCanvasResizing o) st1), Hd).
  rewrite Hdet in Ht.
  simpl. rewrite (scanBody_resolved _ _ _ _ _ _ _ _ Ht). eauto.
Qed.

Lemma detector_without_detection_resolves_witness :
  exists st2,
    scanImage (detectorWorld (Detected [])) 1 (SrcDrawable photo) noOptions initial
    = Some (Resolved {| data := "No QR code found" |}, st2).
Proof.
  exact (detector_without_detection_resolves (detectorWorld (Detected [])) 0
           (SrcDrawable photo) noOptions initial 0%nat photo _ eq_refl eq_refl).
Defined.

Lemma createQrEngine_disabled_worker W st e st' :
  _disableBarcodeDetector st = true ->
  createQrEngine W st = (Ok e, st') -> exists w, e = EWorker w.
Proof.
  intros Hd. rewrite createQrEngine_disabled by done.
  intros Hc. apply createWorker_worker in Hc. eauto.
Qed.

(** C4, as the code has it.  On the detector path, when [detect] fails with
    a message that contains "not implemented" or "service unavailable" as
    written, in lower case, the flag [_disableBarcodeDetector] is set and
    the scan goes on as a new scan with the same region, canvas and flags
    and no engine.  When that retry settles, the attempt settles as it does
    if the retry was in time for the timer of the attempt, and rejects with
    the timeout if not; the flag is still set after it, and it stays set
    through every later scan; with the flag set, every engine
    [createQrEngine] produces, for the retry and for every later scan that
    is not handed an engine, is a worker. *)
Theorem capability_error_downgrades
    W fuel input o st d image st1 c st2 e :
  let st3 :=
    log ERetryWithoutDetector
      (set_disableBarcodeDetector true
         (tick (log (EDetect d c) (log (ETimer (deadline o)) st2)))) in
  acquire W input (qrEngine o) st = (Ok (EBarcodeDetector d, image), st1) ->
  _drawToCanvas image (scanRegion o) (canvas o) (disallowCanvasResizing o) st1
    = (c, st2) ->
  detect W (clock st1) d (deadline o) = DetectFailed e ->
  isCapabilityError (thrownMessage e) = true ->
  _disableBarcodeDetector st3 = true
  /\ qrEngine (retryWithoutDetector o c) = None
  /\ (forall out st4,
        scanImage W fuel input (retryWithoutDetector o c) st3 = Some (out, st4) ->
        tryBlock W (scanImage W fuel) input o st
        = Some (if retryInTime W (clock st1) (deadline o) then out
                else Rejected "Scanner error: timeout",
                {| l_qrEngine := Some (ArgEngine (EBarcodeDetector d));
                   l_canvas := Some c |},
                st4)
        /\ _disableBarcodeDetector st4 = true)
  /\ (forall s e' s',
        _disableBarcodeDetector s = true ->
        createQrEngine W s = (Ok e', s') -> exists w, e' = EWorker w)
  /\ (forall n i o' s r s',
        _disableBarcodeDetector s = true ->
        scanImage W n i o' s = Some (r, s') ->
        _disableBarcodeDetector s' = true).
Proof.
  intros st3 Ha Hd Hdet Hcap.
  pose proof (tryBlock_detector W (scanImage W fuel) _ _ _ _ _ _ _ _ Ha Hd)
    as Ht.
  unfold decodeWithDetector in Ht.
  change (clock (log (ETimer (deadline o)) st2)) with (clock st2) in Ht.
  replace (clock st2) with (clock st1) in Ht
    by (by rewrite <- (_drawToCanvas_clock image (scanRegion o) (canvas o)
                         (disallowCanvasResizing o) st1), Hd).
  rewrite Hdet, Hcap in Ht. fold st3 in Ht.
  split_and!; try done.
  - intros out st4 Hr. rewrite Hr in Ht. split; [done|].
    exact (scanImage_keeps_disabled W _ _ _ st3 out st4 eq_refl Hr).
  - apply createQrEngine_disabled_worker.
  - apply scanImage_keeps_disabled.
Qed.

Lemma capability_error_downgrades_witness :
  exists st4,
    tryBlock slowRetryWorld (scanImage slowRetryWorld 2) (SrcDrawable photo)
      noOptions initial
    = Some (Rejected "Scanner error: timeout",
            {| l_qrEngine := Some (ArgEngine (EBarcodeDetector 0));
               l_canvas := Some 0%nat |},
            st4)
    /\ _disableBarcodeDetector st4 = true.
Proof.
  pose proof (capability_error_downgrades slowRetryWorld 2 (SrcDrawable photo)
                noOptions initial 0%nat photo _ 0%nat _
                (ThrownString "not implemented")
                eq_refl eq_refl eq_refl eq_refl) as (_ & _ & Hretry & _).
  let run := eval vm_compute in
    (scanImage slowRetryWorld 2 (SrcDrawable photo)
       (retryWithoutDetector noOptions 0)
       (log ERetryWithoutDetector
          (set_disableBarcodeDetector true
             (tick (log (EDetect 0 0)
                      (log (ETimer (deadline noOptions))
                         (snd (_drawToCanvas photo None None false
                                 (snd (acquire slowRetryWorld (SrcDrawable photo)
                                         None initial)))))))))) in
  match run with
  | Some (?out, ?st4) =>
      exists st4; apply (Hretry out st4); vm_compute; reflexivity
  end.
Defined.

(** The claim C4 as stated fails in three ways.  The message
    "Not Implemented" matches 'not implemented' without regard to case, yet
    the detector is not disabled, no worker is created and the scan
    rejects.  A scan that is handed a BarcodeDetector after the flag was
    set uses that detector and no worker.  And a retry that is not in time
    for the timer of the scan that started it does not decide the result:
    the worker finds HELLO and the scan rejects with the timeout. *)
Lemma capability_downgrade_limits :
  (Js.contains_i "not implemented" "Not Implemented" = true
   /\ exists st,
        scanImage
          (detectorWorld
             (DetectFailed (ThrownError "NotSupportedError" "Not Implemented")))
          3 (SrcDrawable photo) noOptions initial
        = Some (Rejected "Scanner error: Not Implemented", st)
        /\ _disableBarcodeDetector st = false
        /\ workers st = 0%nat)
  /\ (exists st st',
        scanImage recoveringDetectorWorld 3 (SrcDrawable photo) noOptions initial
        = Some (Resolved {| data := "HELLO" |}, st)
        /\ _disableBarcodeDetector st = true
        /\ scanImage recoveringDetectorWorld 3 (SrcDrawable photo)
             (withEngine (EBarcodeDetector 0)) st
           = Some (Resolved {| data := "DETECTED" |}, st')
        /\ workers st' = workers st
        /\ In (EDetect 0 1) (trace st')
        /\ ~ In (EDetect 0 1) (trace st))
  /\ (exists st,
        scanImage slowRetryWorld 3 (SrcDrawable photo) noOptions initial
        = Some (Rejected "Scanner error: timeout", st)
        /\ posts (trace st)
           = [(0%nat, 2, "close"); (0%nat, 1, "decode");
              (0%nat, 0, "inversionMode")]%string
        /\ channel slowRetryWorld 0 1 10000 = [MessageEvent 1 (Some "HELLO")]).
Proof.
  split_and!.
  - reflexivity.
  - eexists. by vm_compute.
  - let run := eval vm_compute in
      (scanImage recoveringDetectorWorld 3 (SrcDrawable photo) noOptions initial) in
    match run with
    | Some (_, ?st) =>
        let run' := eval vm_compute in
          (scanImage recoveringDetectorWorld 3 (SrcDrawable photo)
             (withEngine (EBarcodeDetector 0)) st) in
        match run' with
        | Some (_, ?st') =>
            exists st, st'; split_and!; try (vm_compute; reflexivity);
            [vm_compute; tauto | vm_compute; intuition discriminate]
        end
    end.
  - eexists. split_and!; vm_compute; reflexivity.
Qed.

(** ** The retry without the scan region *)

Lemma region_retries_app tr1 tr2 :
  region_retries (tr1 ++ tr2) = (region_retries tr1 + region_retries tr2)%nat.
Proof.
  induction tr1 as [|ev tr1 IH]; [done|].
  destruct ev; simpl; by rewrite ?IH.
Qed.

Lemma region_retries_none tr :
  Forall no_region_retry tr -> region_retries tr = 0%nat.
Proof.
  induction 1 as [|ev tr Hq _ IH]; [done|].
  by destruct ev.
Qed.

Lemma retries_within_since tr0 st :
  since tr0 no_region_retry st -> retries_within tr0 0 st.
Proof.
  intros (new & Ht & Hn). exists new. split; [done|].
  by rewrite region_retries_none.
Qed.

Lemma retries_within_trans tr0 k k' st st' :
  retries_within tr0 k st -> retries_within (trace st) k' st' ->
  retries_within tr0 (k' + k) st'.
Proof.
  intros (n1 & Ht1 & Hk1) (n2 & Ht2 & Hk2). exists (n2 ++ n1). split.
  - by rewrite Ht2, Ht1, app_assoc.
  - rewrite region_retries_app. lia.
Qed.

Lemma retries_within_region tr0 k st :
  retries_within tr0 k st -> retries_within tr0 (S k) (log ERetryWithoutRegion st).
Proof.
  intros (new & Ht & Hk). exists (ERetryWithoutRegion :: new). split.
  - simpl. by rewrite Ht.
  - simpl. lia.
Qed.

Lemma cleanup_since (Q : Effect -> Prop) tr0 ext l st :
  (forall w id type payload, Q (EPost w id type payload)) ->
  since tr0 Q st -> since tr0 Q (cleanup ext l st).
Proof.
  intros HQ Hs. unfold cleanup, _postWorkerMessage.
  destruct ext; [done|].
  destruct (l_qrEngine l) as [[[w|d]|reason]|]; simpl; try done.
  destruct Hs as (new & Ht & Hn). exists (EPost w (_workerMessageId st) "close" PNone :: new).
  split; [simpl; by rewrite Ht|]. constructor; [apply HQ|done].
Qed.

(** A call without the fallback makes no retry without the region, at any
    depth. *)
Lemma scanImage_flat_since W fuel input o st r st' :
  fallsBack o = false ->
  scanImage W fuel input o st = Some (r, st') ->
  since (trace st) no_region_retry st'.
Proof.
  intros Hf Hs.
  refine (scanImage_since W (fun o' => fallsBack o' = false) no_region_retry
            _ _ _ _ _ _ _ _ _ _ _ _ _ _ Hs); try done.
  - intros ev Hq Heq. by subst ev.
  - intros o' Ho' Hfb. congruence.
Qed.

(** The attempt of a call that cannot reach a detector makes none. *)
Lemma tryBlock_workerBound_since W self input o st r l st1 :
  workerBound o st ->
  tryBlock W self input o st = Some (r, l, st1) ->
  since (trace st) no_region_retry st1.
Proof.
  intros Hb. unfold tryBlock.
  assert (forall ev, quiet ev = true -> no_region_retry ev) as Hquiet
    by (intros ev Hq Heq; by subst ev).
  destruct (acquire W input (qrEngine o) st) as [[[engine image]|e] st0] eqn:Ha.
  - destruct (acquire_workerBound _ _ _ _ _ _ _ Hb Ha) as [w ->].
    apply acquire_frame in Ha.
    destruct (_drawToCanvas image (scanRegion o) (canvas o)
                (disallowCanvasResizing o) st0) as [c st2] eqn:Hd.
    apply _drawToCanvas_frame in Hd.
    destruct (decodeWithWorker W o _ w c st2) as [[out|] st3] eqn:Hw; [|done].
    intros [= _ _ <-].
    refine (decodeWithWorker_preserves W (fun _ => True)
              (since (trace st) no_region_retry) _ _ _ _ _ _ _ _ _ _ I _ Hw).
    + intros s s'. by apply since_frame.
    + intros w' type payload s (new & Ht & Hn). eexists (_ :: new).
      split; [simpl; by rewrite Ht|]. by constructor.
    + intros o' s _ Hi. by apply since_log.
    + apply (since_frame _ _ st0); [done..|].
      apply (since_frame _ _ st); [done..|]. apply since_refl.
  - intros [= _ _ <-]. apply acquire_frame in Ha.
    apply (since_frame _ _ st); [done..|]. apply since_refl.
Qed.

(** Such a call makes at most its own. *)
Lemma scanImage_workerBound_retries W fuel input o st r st' :
  workerBound o st ->
  scanImage W fuel input o st = Some (r, st') ->
  retries_within (trace st) 1 st'.
Proof.
  intros Hb. destruct fuel as [|fuel]; [done|].
  change (scanImage W (S fuel)) with (scanBody W (scanImage W fuel)).
  unfold scanBody.
  destruct (tryBlock W (scanImage W fuel) input o st) as [[[out l] st1]|] eqn:Ht;
    [|done].
  apply tryBlock_workerBound_since in Ht; [|done].
  assert (forall s, since (trace st) no_region_retry s ->
            retries_within (trace st) 1 (cleanup (is_some (qrEngine o)) l s))
    as Hdone.
  { intros s Hs. apply (cleanup_since _ _ (is_some (qrEngine o)) l) in Hs; [|done].
    destruct (retries_within_since _ _ Hs) as (new & Hn & Hk).
    exists new. split; [done|lia]. }
  destruct out as [res|e].
  - intros [= _ <-]. by apply Hdone.
  - destruct (negb (is_some (scanRegion o)) || negb (alsoTryWithoutScanRegion o)).
    + intros [= _ <-]. by apply Hdone.
    + destruct (scanImage W fuel input (retryWithoutRegion o l)
                  (log ERetryWithoutRegion st1)) as [[out st2]|] eqn:Hr; [|done].
      intros [= _ <-].
      apply scanImage_flat_since in Hr; [|done].
      apply (cleanup_since _ _ (is_some (qrEngine o)) l) in Hr; [|done].
      apply retries_within_since in Hr.
      apply (retries_within_trans _ 1 0 (log ERetryWithoutRegion st1)); [|done].
      apply retries_within_region. by apply retries_within_since.
Qed.

(** The attempt of any call makes at most one, inside the retry that
    leaves out the detector. *)
Lemma tryBlock_retries W fuel input o st r l st1 :
  tryBlock W (scanImage W fuel) input o st = Some (r, l, st1) ->
  retries_within (trace st) 1 st1.
Proof.
  assert (forall ev, quiet ev = true -> no_region_retry ev) as Hquiet
    by (intros ev Hq Heq; by subst ev).
  assert (forall s, since (trace st) no_region_retry s ->
            retries_within (trace st) 1 s) as Hnone.
  { intros s Hs. destruct (retries_within_since _ _ Hs) as (new & Hn & Hk).
    exists new. split; [done|lia]. }
  destruct (acquire W input (qrEngine o) st) as [[[engine image]|e] st0] eqn:Ha.
  - destruct (_drawToCanvas image (scanRegion o) (canvas o)
                (disallowCanvasResizing o) st0) as [c st2] eqn:Hd.
    assert (since (trace st) no_region_retry st2) as H2.
    { apply _drawToCanvas_frame in Hd. pose proof (acquire_frame _ _ _ _ _ _ Ha).
      apply (since_frame _ _ st0); [done..|].
      apply (since_frame _ _ st); [done..|]. apply since_refl. }
    destruct engine as [w|d].
    + rewrite (tryBlock_worker W _ _ _ _ _ _ _ _ _ Ha Hd).
      destruct (decodeWithWorker W o _ w c st2) as [[out|] st3] eqn:Hw; [|done].
      intros [= _ _ <-]. apply Hnone.
      refine (decodeWithWorker_preserves W (fun _ => True)
                (since (trace st) no_region_retry) _ _ _ _ _ _ _ _ _ _ I H2 Hw).
      * intros s s'. by apply since_frame.
      * intros w' type payload s (new & Ht & Hn). eexists (_ :: new).
        split; [simpl; by rewrite Ht|]. by constructor.
      * intros o' s _ Hi. by apply since_log.
    + rewrite (tryBlock_detector W _ _ _ _ _ _ _ _ _ Ha Hd).
      unfold decodeWithDetector.
      assert (since (trace st) no_region_retry
                (tick (log (EDetect d c) (log (ETimer (deadline o)) st2)))) as H3.
      { destruct H2 as (new & Ht & Hn).
        exists (EDetect d c :: ETimer (deadline o) :: new). split.
        - simpl. by rewrite Ht.
        - by repeat constructor. }
      destruct (detect W _ d (deadline o)) as [results|e|].
      * intros [= _ _ <-]. by apply Hnone.
      * destruct (isCapabilityError (thrownMessage e)).
        -- destruct (scanImage W fuel input _ _) as [[retried st4]|] eqn:Hr; [|done].
           intros [= _ _ <-].
           apply scanImage_workerBound_retries in Hr; [|done].
           refine (retries_within_trans (trace st) 0 1 _ _ _ Hr).
           apply retries_within_since. apply since_log; [done|].
           destruct H3 as (new & Ht & Hn). by exists new.
        -- intros [= _ _ <-]. by apply Hnone.
      * intros [= _ _ <-]. by apply Hnone.
  - unfold tryBlock. rewrite Ha. intros [= _ _ <-]. apply Hnone.
    apply acquire_frame in Ha.
    apply (since_frame _ _ st); [done..|]. apply since_refl.
Qed.

(** C5, as the code has it.  A scan with a scan region and
    [alsoTryWithoutScanRegion] whose attempt fails calls [scanImage] once
    more, with no region and the flag off, and settles as that retry does,
    an error included; nothing in that retry, at any depth, is a retry
    without the region again.  The attempt itself can hold one more, made
    by the retry that leaves out the detector, which keeps the region and
    the flag: the scan makes one or two retries without the region, and its
    calls nest three deep at most. *)
Theorem region_retry_happens_once W fuel input o st e l st1 :
  fallsBack o = true ->
  tryBlock W (scanImage W fuel) input o st = Some (Rejected e, l, st1) ->
  let retry := retryWithoutRegion o l in
  let st2 := log ERetryWithoutRegion st1 in
  scanRegion retry = None
  /\ alsoTryWithoutScanRegion retry = false
  /\ scanImage W (S fuel) input o st
     = match scanImage W fuel input retry st2 with
       | Some (out, st3) => Some (out, cleanup (is_some (qrEngine o)) l st3)
       | None => None
       end
  /\ (forall out st3,
        scanImage W fuel input retry st2 = Some (out, st3) ->
        since (trace st2) no_region_retry st3)
  /\ (forall out st',
        scanImage W (S fuel) input o st = Some (out, st') ->
        exists new,
          trace st' = new ++ trace st
          /\ (1 <= region_retries new <= 2)%nat)
  /\ (forall n, scanImage W (S (S (S n))) input o st = scanImage W 3 input o st).
Proof.
  intros Hf Ht retry st2. split; [done|]. split; [done|].
  assert (scanImage W (S fuel) input o st
          = match scanImage W fuel input retry st2 with
            | Some (out, st3) => Some (out, cleanup (is_some (qrEngine o)) l st3)
            | None => None
            end) as Hscan.
  { change (scanImage W (S fuel)) with (scanBody W (scanImage W fuel)).
    by rewrite (scanBody_retries _ _ _ _ _ _ _ _ Ht Hf). }
  split; [done|]. split; [|split].
  - intros out st3 Hr.
    exact (scanImage_flat_since W fuel input retry st2 out st3 eq_refl Hr).
  - intros out st' Hs. rewrite Hscan in Hs.
    destruct (scanImage W fuel input retry st2) as [[out' st3]|] eqn:Hr; [|done].
    injection Hs as _ <-.
    apply scanImage_flat_since in Hr; [|done].
    apply (cleanup_since _ _ (is_some (qrEngine o)) l) in Hr; [|done].
    destruct Hr as (n2 & Ht2 & Hq2).
    destruct (tryBlock_retries _ _ _ _ _ _ _ _ Ht) as (n1 & Ht1 & Hk1).
    exists (n2 ++ ERetryWithoutRegion :: n1). split.
    + rewrite Ht2. subst st2. simpl. by rewrite Ht1, <- app_assoc.
    + rewrite region_retries_app, (region_retries_none _ Hq2). simpl. lia.
  - intros n. apply scanImage_fuel.
Qed.

Lemma region_retry_happens_once_witness :
  exists out st' new,
    scanImage (detectorWorld (DetectFailed (ThrownString "not implemented"))) 3
      (SrcDrawable photo) (withRegion topLeft true None) initial
    = Some (out, st')
    /\ trace st' = new ++ trace initial
    /\ (1 <= region_retries new <= 2)%nat.
Proof.
  let attempt :=
    eval vm_compute in
      (tryBlock (detectorWorld (DetectFailed (ThrownString "not implemented")))
         (scanImage
            (detectorWorld (DetectFailed (ThrownString "not implemented"))) 2)
         (SrcDrawable photo) (withRegion topLeft true None) initial) in
  match attempt with
  | Some (Rejected ?e, ?l, ?st1) =>
      assert (tryBlock (detectorWorld (DetectFailed (ThrownString "not implemented")))
         (scanImage
            (detectorWorld (DetectFailed (ThrownString "not implemented"))) 2)
         (SrcDrawable photo) (withRegion topLeft true None) initial = Some (Rejected e, l, st1)) as Ht by (vm_compute; reflexivity);
      pose proof (region_retry_happens_once
                  (detectorWorld (DetectFailed (ThrownString "not implemented")))
                  2 (SrcDrawable photo)
                  (withRegion topLeft true None) initial e l st1 eq_refl Ht) as Hthm
  end.
  destruct Hthm as (_ & _ & _ & _ & Hcount & _).
  let run :=
    eval vm_compute in
      (scanImage (detectorWorld (DetectFailed (ThrownString "not implemented"))) 3
         (SrcDrawable photo) (withRegion topLeft true None) initial) in
  match run with
  | Some (?out, ?st') =>
      assert (scanImage
                (detectorWorld (DetectFailed (ThrownString "not implemented"))) 3
                (SrcDrawable photo) (withRegion topLeft true None) initial
              = Some (out, st')) as Hs by (vm_compute; reflexivity);
      destruct (Hcount out st' Hs) as (new & Hn & Hk);
      exists out, st', new
  end.
  split; [exact Hs|]. split; [exact Hn|exact Hk].
Defined.

(** The claim C5 as stated fails when the attempt goes through a detector
    that is not implemented: the retry that leaves out the detector keeps
    the region and the flag and makes a retry without the region of its
    own, before the scan makes its own.  One scan makes two retries without
    the region, and a call with one level of recursion under it is not
    enough to run it: the calls nest three deep. *)
Lemma capability_retry_retries_without_region :
  let W := detectorWorld (DetectFailed (ThrownString "not implemented")) in
  let o := withRegion topLeft true None in
  scanImage W 2 (SrcDrawable photo) o initial = None
  /\ exists st,
       scanImage W 3 (SrcDrawable photo) o initial
       = Some (Rejected "No QR code found", st)
       /\ region_retries (trace st) = 2%nat.
Proof. split; [by vm_compute|]. eexists. split; vm_compute; reflexivity. Qed.

(** ** Deadlines and channel errors *)

(** C6, as the code has it.  The deadline is [options.timeout] when it is
    given and not zero, and 10000 ms otherwise.  On the worker path, once
    the decode request is posted, when nothing but messages with other ids
    arrives within the deadline the attempt rejects with
    "Scanner error: timeout"; on the detector path likewise when [detect]
    is still pending at the deadline, and when the retry after a capability
    error is not in time for it.  When an error event is the first thing to
    reach the pending request, the attempt rejects with "Scanner error: "
    followed by the message of the event when it has a non-empty one, by
    "Unknown Error" when the error value itself is absent, and by the
    string form of the event object when the event has no message.  A scan
    that makes no retry without the region rejects with the string of its
    attempt. *)
Theorem decode_deadline_and_channel_errors W self input o st :
  let id := _workerMessageId st + (if is_some (qrEngine o) then 0 else 1) in
  deadline o = match timeout o with
               | Some t => if t =? 0 then 10000 else t
               | None => 10000
               end
  /\ (forall w image st1 c st2,
        acquire W input (qrEngine o) st = (Ok (EWorker w, image), st1) ->
        _drawToCanvas image (scanRegion o) (canvas o)
          (disallowCanvasResizing o) st1 = (c, st2) ->
        readable W c st2 ->
        Forall (unmatched id) (channel W w id (deadline o)) ->
        exists l st3,
          tryBlock W self input o st
          = Some (Rejected "Scanner error: timeout", l, st3)
          /\ In (ETimer (deadline o)) (trace st3))
  /\ (forall d image st1,
        acquire W input (qrEngine o) st = (Ok (EBarcodeDetector d, image), st1) ->
        detect W (clock st1) d (deadline o) = DetectPending ->
        exists l st2,
          tryBlock W self input o st
          = Some (Rejected "Scanner error: timeout", l, st2)
          /\ In (ETimer (deadline o)) (trace st2))
  /\ (forall d image st1 c st2 e out st4,
        acquire W input (qrEngine o) st = (Ok (EBarcodeDetector d, image), st1) ->
        _drawToCanvas image (scanRegion o) (canvas o)
          (disallowCanvasResizing o) st1 = (c, st2) ->
        detect W (clock st1) d (deadline o) = DetectFailed e ->
        isCapabilityError (thrownMessage e) = true ->
        retryInTime W (clock st1) (deadline o) = false ->
        self input (retryWithoutDetector o c)
          (log ERetryWithoutDetector
             (set_disableBarcodeDetector true
                (tick (log (EDetect d c) (log (ETimer (deadline o)) st2)))))
        = Some (out, st4) ->
        exists l,
          tryBlock W self input o st
          = Some (Rejected "Scanner error: timeout", l, st4))
  /\ (forall w image st1 c st2 pre err post,
        acquire W input (qrEngine o) st = (Ok (EWorker w, image), st1) ->
        _drawToCanvas image (scanRegion o) (canvas o)
          (disallowCanvasResizing o) st1 = (c, st2) ->
        readable W c st2 ->
        channel W w id (deadline o) = pre ++ ErrorEvent err :: post ->
        Forall (unmatched id) pre ->
        exists l st3,
          tryBlock W self input o st
          = Some (Rejected ("Scanner error: " +:+ errorMessage err), l, st3))
  /\ (forall tag c m, errorMessage (ErrEvent tag (Some (String c m))) = String c m)
  /\ errorMessage ErrAbsent = "Unknown Error"
  /\ (forall tag, errorMessage (ErrEvent tag None) = "[object " +:+ tag +:+ "]")
  /\ (forall e l st2,
        tryBlock W self input o st = Some (Rejected e, l, st2) ->
        fallsBack o = false ->
        scanBody W self input o st
        = Some (Rejected e, cleanup (is_some (qrEngine o)) l st2)).
Proof.
  intros id. split_and!; try done.
  - intros w image st1 c st2 Ha Hd Hread Hsilent.
    apply (tryBlock_worker_outcome W self _ _ _ _ _ _ _ _ _ Ha Hd Hread).
    fold id. by rewrite request_timeout.
  - intros d image st1 Ha Hdet.
    destruct (_drawToCanvas image (scanRegion o) (canvas o)
                (disallowCanvasResizing o) st1) as [c st2] eqn:Hd.
    rewrite (tryBlock_detector W self _ _ _ _ _ _ _ _ Ha Hd).
    unfold decodeWithDetector.
    change (clock (log (ETimer (deadline o)) st2)) with (clock st2).
    replace (clock st2) with (clock st1)
      by (by rewrite <- (_drawToCanvas_clock image (scanRegion o) (canvas o)
                           (disallowCanvasResizing o) st1), Hd).
    rewrite Hdet. eexists _, _. split; [done|]. simpl. right. by left.
  - intros d image st1 c st2 e out st4 Ha Hd Hdet Hcap Hlate Hretry.
    rewrite (tryBlock_detector W self _ _ _ _ _ _ _ _ Ha Hd).
    unfold decodeWithDetector.
    change (clock (log (ETimer (deadline o)) st2)) with (clock st2).
    replace (clock st2) with (clock st1)
      by (by rewrite <- (_drawToCanvas_clock image (scanRegion o) (canvas o)
                           (disallowCanvasResizing o) st1), Hd).
    rewrite Hdet, Hcap, Hretry, Hlate. by eexists.
  - intros w image st1 c st2 pre err post Ha Hd Hread Hc Hpre.
    destruct (tryBlock_worker_outcome W self input o st w image st1 c st2
                (Rejected ("Scanner error: " +:+ errorMessage err)) Ha Hd Hread)
      as (l & st3 & Ht & _).
    { fold id. by rewrite Hc, request_error. }
    by eexists _, _.
  - intros e l st2 Ht Hf. by apply scanBody_rejected.
Qed.

Lemma decode_deadline_and_channel_errors_witness :
  exists l st3,
    tryBlock brokenWorkerWorld (scanImage brokenWorkerWorld 0)
      (SrcDrawable photo) noOptions initial
    = Some (Rejected "Scanner error: [object Event]", l, st3).
Proof.
  refine (proj1 (proj2 (proj2 (proj2 (proj2
    (decode_deadline_and_channel_errors brokenWorkerWorld
       (scanImage brokenWorkerWorld 0) (SrcDrawable photo) noOptions initial)))))
    0%nat photo _ _ _ [] (ErrEvent "Event" None) [] eq_refl eq_refl _ eq_refl
    (List.Forall_nil _)).
  repeat split; vm_compute; congruence.
Defined.

(** The claim C6 as stated fails in four ways.  On an error event that has
    no message the scan rejects with the string form of the event, not with
    "Scanner error: Unknown Error".  A timeout of 0, though given, leaves
    the deadline at 10000 ms.  A scan whose request gets no answer before
    the deadline does not reject when its options ask for the retry without
    the scan region: the attempt rejects and the retry decides.  And on a
    canvas that cannot be read no decode request is posted, so no result
    arrives, and the scan rejects at once with the exception, not with the
    timeout. *)
Lemma deadline_and_error_limits :
  (channel brokenWorkerWorld 0 1 10000 = [ErrorEvent (ErrEvent "Event" None)]
   /\ exists st,
        scanImage brokenWorkerWorld 3 (SrcDrawable photo) noOptions initial
        = Some (Rejected "Scanner error: [object Event]", st)
        /\ Rejected "Scanner error: [object Event]"
           <> Rejected "Scanner error: Unknown Error")
  /\ (exists r st,
        scanImage workerWorld 3 (SrcDrawable photo)
          (withRegion wholeImage false (Some 0)) initial
        = Some (r, st)
        /\ In (ETimer 10000) (trace st)
        /\ ~ In (ETimer 0) (trace st))
  /\ (channel silentFirstWorld 0 1 10000 = []
      /\ exists l st1 st,
           tryBlock silentFirstWorld (scanImage silentFirstWorld 2)
             (SrcDrawable photo) (withRegion topLeft true None) initial
           = Some (Rejected "Scanner error: timeout", l, st1)
           /\ scanImage silentFirstWorld 3 (SrcDrawable photo)
                (withRegion topLeft true None) initial
              = Some (Resolved {| data := "HELLO" |}, st))
  /\ (exists st,
        scanImage taintedWorld 3 (SrcDrawable photo) noOptions initial
        = Some (Rejected "SecurityError", st)
        /\ posts (trace st)
           = [(0%nat, 1, "close"); (0%nat, 0, "inversionMode")]%string).
Proof.
  split_and!.
  - reflexivity.
  - eexists. by vm_compute.
  - eexists _, _. split; [by vm_compute|]. vm_compute. intuition discriminate.
  - reflexivity.
  - eexists _, _, _. split; vm_compute; reflexivity.
  - eexists. split; vm_compute; reflexivity.
Qed.

(** ** Correlation ids *)

Lemma StronglySorted_gt_NoDup l : StronglySorted Z.gt l -> NoDup l.
Proof.
  induction 1 as [|x l _ IH Hx]; constructor; [|done].
  intros Hin. rewrite Forall_forall in Hx. specialize (Hx x Hin). lia.
Qed.

(** C7.  A message posted to a worker gets the value of the counter as its
    id and leaves the counter one above it; so through every scan, started
    in a process whose ids so far are increasing, each id posted is above
    all ids posted before and no id occurs twice.  A response whose id is
    not the one the pending request expects leaves the request exactly as
    it was: not settled, with its listeners and its timer. *)
Theorem correlation_ids_increase_and_stale_ignored
    W fuel input o st r st' p id payload :
  ids_increasing st ->
  scanImage W fuel input o st = Some (r, st') ->
  id <> expectedResponseId p ->
  (forall w type data s,
     _postWorkerMessageSync (Some (EWorker w)) type data s
     = (_workerMessageId s,
        log (EPost w (_workerMessageId s) type data)
          (set_workerMessageId (_workerMessageId s + 1) s)))
  /\ ids_increasing initial
  /\ ids_increasing st'
  /\ NoDup (post_ids (trace st'))
  /\ dispatch p (MessageEvent id payload) = p
  /\ forall expected evs,
       id <> expected ->
       request expected (MessageEvent id payload :: evs) = request expected evs.
Proof.
  intros Hi Hs Hne.
  pose proof (scanImage_ids_increasing W _ _ _ _ _ _ Hi Hs) as Hi'.
  split_and!; try done.
  - split; constructor.
  - by apply StronglySorted_gt_NoDup, Hi'.
  - by apply dispatch_stale.
  - intros expected evs Hstale. unfold request. cbn [fold_left].
    by rewrite dispatch_stale.
Qed.

Lemma correlation_ids_increase_and_stale_ignored_witness :
  exists st',
    scanImage workerWorld 3 (SrcDrawable photo) noOptions initial
    = Some (Resolved {| data := "HELLO" |}, st')
    /\ ids_increasing st'
    /\ dispatch (pending 1) (MessageEvent 0 (Some "STALE")) = pending 1.
Proof.
  let run :=
    eval vm_compute in
      (scanImage workerWorld 3 (SrcDrawable photo) noOptions initial) in
  match run with
  | Some (?r, ?st') =>
      exists st';
      destruct (correlation_ids_increase_and_stale_ignored workerWorld 3
                  (SrcDrawable photo) noOptions initial r st' (pending 1) 0
                  (Some "STALE"%string))
        as (_ & _ & Hi & _ & Hd & _)
  end.
  - split; constructor.
  - vm_compute. reflexivity.
  - simpl. lia.
  - split; [vm_compute; reflexivity|]. by split.
Defined.

(** ** The canvas *)

Lemma getCanvas_insert c cv cs st :
  (c < length cs)%nat -> getCanvas c (set_canvases (<[c := cv]> cs) st) = cv.
Proof. intros Hc. unfold getCanvas. simpl. by rewrite list_lookup_insert_eq. Qed.

Lemma storedDimension_valid dflt v :
  0 <= v <= 2147483647 -> storedDimension dflt v = v.
Proof.
  intros Hv. unfold storedDimension. cbv zeta.
  rewrite Z.mod_small by lia.
  destruct (Z.leb_spec v 2147483647); [done|lia].
Qed.

Lemma setWidth_spec c v st :
  (c < length (canvases st))%nat ->
  getCanvas c (setWidth c v st)
  = {| c_width := storedDimension 300 v;
       c_height := c_height (getCanvas c st); c_content := [] |}
  /\ length (canvases (setWidth c v st)) = length (canvases st)
  /\ trace (setWidth c v st) = ESetWidth c v :: trace st.
Proof.
  intros Hc. unfold setWidth. cbv zeta.
  rewrite getCanvas_insert by exact Hc. simpl. by rewrite length_insert.
Qed.

Lemma setHeight_spec c v st :
  (c < length (canvases st))%nat ->
  getCanvas c (setHeight c v st)
  = {| c_width := c_width (getCanvas c st);
       c_height := storedDimension 150 v; c_content := [] |}
  /\ length (canvases (setHeight c v st)) = length (canvases st)
  /\ trace (setHeight c v st) = ESetHeight c v :: trace st.
Proof.
  intros Hc. unfold setHeight. cbv zeta.
  rewrite getCanvas_insert by exact Hc. simpl. by rewrite length_insert.
Qed.

Lemma resizeCanvas_spec image region c st :
  (c < length (canvases st))%nat ->
  let tw := canvasWidth image region in
  let th := canvasHeight image region in
  let before := getCanvas c st in
  let st1 := resizeCanvas image region c st in
  c_width (getCanvas c st1)
  = (if c_width before =? tw then tw else storedDimension 300 tw)
  /\ c_height (getCanvas c st1)
     = (if c_height before =? th then th else storedDimension 150 th)
  /\ length (canvases st1) = length (canvases st)
  /\ trace st1
     = (if c_height before =? th then [] else [ESetHeight c th])
       ++ (if c_width before =? tw then [] else [ESetWidth c tw])
       ++ trace st
  /\ (c_width before = tw -> c_height before = th -> st1 = st).
Proof.
  intros Hc tw th before st1. subst st1. unfold resizeCanvas.
  fold tw th before.
  destruct (Z.eqb_spec (c_width before) tw) as [Hw|Hw].
  - fold before. destruct (Z.eqb_spec (c_height before) th) as [Hh|Hh].
    + by split_and!.
    + destruct (setHeight_spec c th st Hc) as (Hg & Hl & Ht).
      rewrite Hg, Hl, Ht. by split_and!.
  - destruct (setWidth_spec c tw st Hc) as (Hg & Hl & Ht).
    rewrite Hg. cbn [c_height c_width]. fold before.
    destruct (Z.eqb_spec (c_height before) th) as [Hh|Hh].
    + rewrite ?Hg, ?Hl, ?Ht. by split_and!.
    + destruct (setHeight_spec c th (setWidth c tw st)) as (Hg' & Hl' & Ht');
        [by rewrite Hl|].
      rewrite ?Hg', ?Hl', ?Ht', ?Hl, ?Ht, ?Hg. by split_and!.
Qed.

(** C8, as the code has it.  With resizing allowed, [_drawToCanvas] aims at
    the width and the height of the target: the downscale target of the
    region when it is given and not zero, else the width and height of the
    region, else those of the image.  A dimension is written only when the
    canvas does not have the target value already, and the canvas stores
    what is written as an unsigned long: a target from 0 to 2^31 - 1 is the
    dimension the canvas ends with, any other is stored modulo 2^32 or
    leaves the default of 300 or 150.  On a canvas that has both target
    dimensions the resizing step changes nothing at all, and what was drawn
    on the canvas before is still on it, under the new drawing. *)
Theorem resize_skipped_when_unchanged image region canvas st :
  match canvas with
  | Some c0 => (c0 < length (canvases st))%nat
  | None => True
  end ->
  let tw := canvasWidth image region in
  let th := canvasHeight image region in
  let c := fst (_drawToCanvas image region canvas false st) in
  let st' := snd (_drawToCanvas image region canvas false st) in
  let before := match canvas with
                | Some c0 => getCanvas c0 st
                | None => blank
                end in
  c_width (getCanvas c st')
  = (if c_width before =? tw then tw else storedDimension 300 tw)
  /\ c_height (getCanvas c st')
     = (if c_height before =? th then th else storedDimension 150 th)
  /\ (0 <= tw <= 2147483647 -> c_width (getCanvas c st') = tw)
  /\ (0 <= th <= 2147483647 -> c_height (getCanvas c st') = th)
  /\ tw = match region with
          | Some r =>
              if Js.truthy (sr_downScaledWidth r)
              then default 0 (sr_downScaledWidth r)
              else if Js.truthy (sr_width r) then default 0 (sr_width r)
              else img_width image
          | None => img_width image
          end
  /\ th = match region with
          | Some r =>
              if Js.truthy (sr_downScaledHeight r)
              then default 0 (sr_downScaledHeight r)
              else if Js.truthy (sr_height r) then default 0 (sr_height r)
              else img_height image
          | None => img_height image
          end
  /\ forall c0,
       canvas = Some c0 ->
       trace st'
       = (if c_height before =? th then [] else [ESetHeight c0 th])
         ++ (if c_width before =? tw then [] else [ESetWidth c0 tw])
         ++ trace st
       /\ (c_width before = tw -> c_height before = th ->
           resizeCanvas image region c0 st = st
           /\ exists op, c_content (getCanvas c0 st') = op :: c_content before).
Proof.
  intros Hvalid tw th c st' before.
  assert (exists c1 st0,
            match canvas with
            | Some c0 => (c0, st)
            | None => createCanvas st
            end = (c1, st0)
            /\ (c1 < length (canvases st0))%nat
            /\ getCanvas c1 st0 = before) as (c1 & st0 & Hc & Hlt & Hbefore).
  { destruct canvas as [c0|]; [by eexists _, _|].
    eexists _, _. split; [done|]. split.
    - simpl. rewrite length_app. simpl. lia.
    - unfold getCanvas. simpl.
      by rewrite lookup_app_r, Nat.sub_diag by lia. }
  assert (c = c1 /\ st' = drawImage c1 image (regionField sr_x region 0)
                            (regionField sr_y region 0)
                            (regionField sr_width region (img_width image))
                            (regionField sr_height region (img_height image))
                            (resizeCanvas image region c1 st0)) as [-> Hst'].
  { subst c st'. unfold _drawToCanvas. by rewrite Hc. }
  destruct (resizeCanvas_spec image region c1 st0 Hlt)
    as (Hw & Hh & Hlen & Htr & Hsame).
  fold tw th in Hw, Hh, Htr, Hsame. rewrite Hbefore in Hw, Hh, Htr, Hsame.
  assert (getCanvas c1 st'
          = {| c_width := c_width (getCanvas c1 (resizeCanvas image region c1 st0));
               c_height := c_height (getCanvas c1 (resizeCanvas image region c1 st0));
               c_content :=
                 {| d_image := image; d_sx := regionField sr_x region 0;
                    d_sy := regionField sr_y region 0;
                    d_sw := regionField sr_width region (img_width image);
                    d_sh := regionField sr_height region (img_height image);
                    d_dw := c_width (getCanvas c1 (resizeCanvas image region c1 st0));
                    d_dh := c_height (getCanvas c1 (resizeCanvas image region c1 st0)) |}
                 :: c_content (getCanvas c1 (resizeCanvas image region c1 st0)) |})
    as Hg.
  { rewrite Hst'. unfold drawImage. by rewrite getCanvas_insert by lia. }
  split_and!.
  - by rewrite Hg.
  - by rewrite Hg.
  - intros Hv. rewrite Hg. cbn [c_width]. rewrite Hw.
    destruct (c_width before =? tw); [done|by apply storedDimension_valid].
  - intros Hv. rewrite Hg. cbn [c_height]. rewrite Hh.
    destruct (c_height before =? th); [done|by apply storedDimension_valid].
  - subst tw. unfold canvasWidth, regionField, Js.num_or, Js.truthy.
    destruct region as [r|]; [|done].
    destruct (sr_downScaledWidth r) as [dw|], (sr_width r) as [rw|]; simpl;
      repeat case_match; done.
  - subst th. unfold canvasHeight, regionField, Js.num_or, Js.truthy.
    destruct region as [r|]; [|done].
    destruct (sr_downScaledHeight r) as [dh|], (sr_height r) as [rh|]; simpl;
      repeat case_match; done.
  - intros c0 Heq. subst canvas. simplify_eq. split.
    + by rewrite Hst'.
    + intros Hbw Hbh. specialize (Hsame Hbw Hbh). split; [done|].
      rewrite Hg, Hsame. eauto.
Qed.

Lemma resize_skipped_when_unchanged_witness :
  let st := set_canvases
              [ {| c_width := 25; c_height := 40; c_content := [] |} ] initial in
  resizeCanvas photo (Some topLeft) 0 st = st.
Proof.
  intros st.
  destruct (resize_skipped_when_unchanged photo (Some topLeft) (Some 0%nat) st)
    as (_ & _ & _ & _ & _ & _ & Hskip).
  - simpl. lia.
  - destruct (Hskip 0%nat eq_refl) as [_ Hsame].
    exact (proj1 (Hsame eq_refl eq_refl)).
Defined.

(** The claim C8 as stated fails in two ways.  A downscale target of -5 is
    no canvas dimension: the width of the canvas is written and stays the
    default of 300, so that the canvas never has the target and every
    projection writes the width again.  And a downscale target of 0, though
    given, is passed over for the width of the region. *)
Lemma invalid_target_is_not_stored :
  (let r := {| sr_x := Some 0; sr_y := Some 0; sr_width := Some 50;
               sr_height := Some 40; sr_downScaledWidth := Some (-5);
               sr_downScaledHeight := None |} in
   let st1 := snd (_drawToCanvas photo (Some r) None false initial) in
   let st2 := snd (_drawToCanvas photo (Some r) (Some 0%nat) false st1) in
   canvasWidth photo (Some r) = -5
   /\ c_width (getCanvas 0 st1) = 300
   /\ trace st2 = [ESetWidth 0 (-5); ESetHeight 0 40; ESetWidth 0 (-5)]
   /\ length (c_content (getCanvas 0 st2)) = 1%nat)
  /\ (let r := {| sr_x := Some 0; sr_y := Some 0; sr_width := Some 50;
                  sr_height := Some 40; sr_downScaledWidth := Some 0;
                  sr_downScaledHeight := None |} in
      c_width (getCanvas 0 (snd (_drawToCanvas photo (Some r) None false initial)))
      = 50).
Proof. split; [by vm_compute|reflexivity]. Qed.

(** ** Engine selection *)

(** C9.  Selection does not fail because of the environment probe: when
    [createQrEngine] rejects, the reason is that of [getSupportedFormats]
    or of the import of the worker module.  Without [userAgentData] the
    exclusion does not apply and selection goes on to the detector.  When
    the high-entropy query is made and rejects, the environment counts as
    excluded: selection is the creation of a worker, and an engine it
    produces is a worker. *)
Theorem probe_failure_selects_worker W st :
  (forall r st',
     createQrEngine W st = (Throw r, st') ->
     getSupportedFormats W = inl r \/ importWorker W (clock st) = Some r)
  /\ (userAgentData W = None ->
      isChromiumOnMacWithArmVentura W = false
      /\ (useBarcodeDetector W st = (Ok true, st) ->
          createQrEngine W st
          = (Ok (EBarcodeDetector (detectors st)),
             log (ENewDetector (detectors st))
               (set_detectors (S (detectors st)) st))))
  /\ (forall ua,
        userAgentData W = Some ua ->
        existsb (fun b => Js.contains_i "chromium" (brand b)) (brands ua) = true ->
        Js.contains_i "macos" (platform ua)
        || Js.contains_i "mac os" (platform ua) = true ->
        getHighEntropyValues ua = ProbeRejects ->
        isChromiumOnMacWithArmVentura W = true
        /\ (forall use, useBarcodeDetector W st = (Ok use, st) ->
            createQrEngine W st = createWorker W st)
        /\ (forall e st', createQrEngine W st = (Ok e, st') ->
            e = EWorker (workers st))).
Proof.
  assert (forall use, isChromiumOnMacWithArmVentura W = true ->
            useBarcodeDetector W st = (Ok use, st) ->
            createQrEngine W st = createWorker W st) as Hexcluded.
  { intros use Hx Hu. unfold createQrEngine, bind. rewrite Hu, Hx.
    by destruct use. }
  split_and!.
  - intros r st'. unfold createQrEngine, bind.
    destruct (useBarcodeDetector W st) as [[use|e] st0] eqn:Hu.
    + apply useBarcodeDetector_state in Hu as ->.
      assert (createWorker W st = (Throw r, st') ->
              importWorker W (clock st) = Some r) as Hw.
      { unfold createWorker.
        destruct (importWorker W (clock st)); by intros [= <- <-]. }
      destruct (negb use); [intros Hc; right; by apply Hw|].
      destruct (isChromiumOnMacWithArmVentura W);
        [intros Hc; right; by apply Hw|done].
    + intros [= <- <-]. left.
      unfold useBarcodeDetector in Hu. repeat case_match; by simplify_eq.
  - intros Hnone.
    assert (isChromiumOnMacWithArmVentura W = false) as Hx
      by (unfold isChromiumOnMacWithArmVentura; by rewrite Hnone).
    split; [done|].
    intros Hu. unfold createQrEngine, bind. by rewrite Hu, Hx.
  - intros ua Hua Hbrand Hplatform Hprobe.
    assert (isChromiumOnMacWithArmVentura W = true) as Hx.
    { unfold isChromiumOnMacWithArmVentura.
      by rewrite Hua, Hbrand, Hplatform, Hprobe. }
    split_and!; [done|by intros use; apply Hexcluded|].
    intros e st' Hc. unfold createQrEngine, bind in Hc.
    destruct (useBarcodeDetector W st) as [[use|r] st0] eqn:Hu; [|done].
    apply useBarcodeDetector_state in Hu as ->. rewrite Hx in Hc.
    apply (createWorker_worker W st e st'). by destruct use.
Qed.

Lemma probe_failure_selects_worker_witness :
  createQrEngine macWorld initial = createWorker macWorld initial.
Proof.
  exact (proj1 (proj2
    (proj2 (proj2 (probe_failure_selects_worker macWorld initial))
       _ eq_refl eq_refl eq_refl eq_refl)) true eq_refl).
Defined.

(** ** The deadline of the retries *)





(** ** Cleanup *)

Lemma tryBlock_locals W self input o st engine image st1 r l st' :
  acquire W input (qrEngine o) st = (Ok (engine, image), st1) ->
  tryBlock W self input o st = Some (r, l, st') ->
  l_qrEngine l = Some (ArgEngine engine).
Proof.
  intros Ha. unfold tryBlock. rewrite Ha.
  destruct (_drawToCanvas image (scanRegion o) (canvas o)
              (disallowCanvasResizing o) st1) as [c st2].
  destruct engine as [w|d].
  - destruct (decodeWithWorker W o _ w c st2) as [[out|] st3]; [|done].
    by intros [= _ <- _].
  - destruct (decodeWithDetector W self input o d c st2) as [[out st3]|]; [|done].
    by intros [= _ <- _].
Qed.

(** The finally block closes the worker the scan created, once the engine
    and the image were both acquired. *)
Lemma scan_closes_acquired_worker W fuel input o st w image st1 out st' :
  qrEngine o = None ->
  acquire W input None st = (Ok (EWorker w, image), st1) ->
  scanImage W (S fuel) input o st = Some (out, st') ->
  exists id tr, trace st' = EPost w id "close" PNone :: tr.
Proof.
  intros Hq Ha. simpl. unfold scanBody. rewrite <- Hq in Ha.
  destruct (tryBlock W (scanImage W fuel) input o st) as [[[r l] st2]|] eqn:Ht;
    [|done].
  pose proof (tryBlock_locals W _ _ _ _ _ _ _ _ _ _ Ha Ht) as Hl.
  assert (forall s, exists id tr,
            trace (cleanup (is_some (qrEngine o)) l s)
            = EPost w id "close" PNone :: tr) as Hclose.
  { intros s. unfold cleanup, _postWorkerMessage. rewrite Hq, Hl. simpl. eauto. }
  destruct r as [res|e].
  - intros [= _ <-]. apply Hclose.
  - destruct (negb (is_some (scanRegion o)) || negb (alsoTryWithoutScanRegion o)).
    + intros [= _ <-]. apply Hclose.
    + destruct (scanImage W fuel input _ _) as [[out' st3]|]; [|done].
      intros [= _ <-]. apply Hclose.
Qed.

(** When the acquisition fails, the variable [qrEngine] still holds the
    option, and the finally block posts nothing. *)
Lemma scan_posts_nothing_when_acquisition_fails W fuel input o st e st1 :
  qrEngine o = None ->
  acquire W input None st = (Throw e, st1) ->
  fallsBack o = false ->
  scanImage W (S fuel) input o st = Some (Rejected e, st1).
Proof.
  intros Hq Ha Hf. simpl.
  assert (tryBlock W (scanImage W fuel) input o st
          = Some (Rejected e,
                  {| l_qrEngine := qrEngine o; l_canvas := canvas o |}, st1)) as Ht.
  { unfold tryBlock. by rewrite Hq, Ha. }
  rewrite (scanBody_rejected W _ _ _ _ _ _ _ Ht Hf).
  unfold cleanup, _postWorkerMessage. by rewrite Hq.
Qed.

(** C1 fails on the code.  A scan without [qrEngine] of an input that
    [_loadImage] rejects: [createQrEngine] has created worker 0, the scan
    rejects, and the finally block has posted no message; the worker is
    never sent [close]. *)
Theorem created_worker_left_open_when_image_fails :
  exists st,
    scanImage workerWorld 3 SrcUnsupported noOptions initial
    = Some (Rejected "Unsupported image type.", st)
    /\ trace st = [ECreateWorker 0]
    /\ workers st = 1%nat
    /\ forall id, ~ In (EPost 0 id "close" PNone) (trace st).
Proof.
  eexists. split; [by vm_compute|]. split; [done|]. split; [done|].
  intros id [Hin|[]]. discriminate.
Qed.


(** * Further properties of the class *)

(** ** The ids of a process *)

Lemma ids_gapless_frame st st' : frame st st' -> ids_gapless st -> ids_gapless st'.
Proof.
  intros (_ & Hi & new & Ht & Hq) (n & Hn & Hp). exists n.
  by rewrite Hi, Ht, post_ids_app, (post_ids_quiet _ Hq).
Qed.

Lemma ids_gapless_post w type payload st :
  ids_gapless st ->
  ids_gapless (snd (_postWorkerMessageSync (Some (EWorker w)) type payload st)).
Proof.
  intros (n & Hn & Hp). exists (S n). simpl. split; [lia|].
  by rewrite Hp, Hn.
Qed.

(** X1.  The ids a process has posted are 0, 1, 2, ... without a gap: the
    counter is the number of messages posted, and every scan keeps it so,
    whatever path it takes. *)
Theorem worker_ids_are_gapless W fuel input o st r st' :
  ids_gapless st ->
  scanImage W fuel input o st = Some (r, st') ->
  ids_gapless st'
  /\ _workerMessageId st' = Z.of_nat (length (posts (trace st'))).
Proof.
  intros Hi Hs.
  assert (ids_gapless st') as Hg.
  { refine (scanImage_preserves W (fun _ => True) ids_gapless
              _ _ _ _ _ _ _ fuel input o st r st' I Hi Hs); try done.
    - apply ids_gapless_frame.
    - intros. by apply ids_gapless_post. }
  split; [done|].
  destruct Hg as (n & Hn & Hp). rewrite Hn. f_equal.
  assert (forall tr, length (posts tr) = length (post_ids tr)) as Hlen.
  { induction tr as [|ev tr IH]; [done|]. destruct ev; simpl; by rewrite ?IH. }
  rewrite Hlen, Hp. clear. induction n as [|n IH]; [done|]. simpl. by rewrite <- IH.
Qed.

Lemma worker_ids_are_gapless_witness :
  exists st',
    scanImage workerWorld 3 (SrcDrawable photo) noOptions initial
    = Some (Resolved {| data := "HELLO" |}, st')
    /\ _workerMessageId st' = Z.of_nat (length (posts (trace st'))).
Proof.
  let run :=
    eval vm_compute in
      (scanImage workerWorld 3 (SrcDrawable photo) noOptions initial) in
  match run with
  | Some (?r, ?st') =>
      exists st';
      destruct (worker_ids_are_gapless workerWorld 3 (SrcDrawable photo)
                  noOptions initial r st') as [_ Hc]
  end.
  - by exists 0%nat.
  - vm_compute. reflexivity.
  - split; [vm_compute; reflexivity|exact Hc].
Defined.

(** ** The end of a request *)

Lemma settle_finishes o p :
  messageListener p = false -> errorListener p = false -> timer p = false ->
  finished (settle o p).
Proof.
  intros Hm He Ht. destruct (settle_listeners o p) as (Hm' & He' & Ht').
  unfold finished. rewrite Hm', He', Ht'.
  split_and!; try done. apply settle_settled.
Qed.

Lemma dispatch_pristine_or_finished p ev :
  pristine_or_finished p -> pristine_or_finished (dispatch p ev).
Proof.
  intros [(Hm & He & Ht & Hs)|(Hm & He & Ht & Hs)].
  - destruct ev as [id payload|err]; simpl; rewrite ?Hm, ?He.
    + unfold onMessage. destruct (negb (id =? expectedResponseId p)).
      * by left.
      * right. destruct payload; by apply settle_finishes.
    + right. by apply settle_finishes.
  - right. destruct ev; simpl; by rewrite ?Hm, ?He.
Qed.

(** X3.  However a decode request ends - a matching response, an error
    event, the deadline, in any order and with any other traffic on the
    channel - it is settled, both listeners are removed and the timer is
    cleared: a request leaves nothing registered on the worker. *)
Theorem request_leaves_nothing_registered id evs : finished (request id evs).
Proof.
  unfold request.
  assert (pristine_or_finished (fold_left dispatch evs (pending id))) as Hp.
  { assert (pristine_or_finished (pending id)) as H0 by (by left).
    revert H0. generalize (pending id).
    induction evs as [|ev evs IH]; intros p Hp; [done|].
    simpl. by apply IH, dispatch_pristine_or_finished. }
  unfold fireTimer.
  destruct Hp as [(Hm & He & Ht & Hs)|(Hm & He & Ht & Hs)]; rewrite Ht.
  - by apply settle_finishes.
  - done.
Qed.

(** ** What a scan posts *)

Lemma posts_app tr1 tr2 : posts (tr1 ++ tr2) = posts tr1 ++ posts tr2.
Proof.
  induction tr1 as [|ev tr1 IH]; [done|].
  destruct ev; simpl; by rewrite ?IH.
Qed.

Lemma posts_frame st st' : frame st st' -> posts (trace st') = posts (trace st).
Proof.
  intros (_ & _ & new & -> & Hq). rewrite posts_app.
  replace (posts new) with (@nil (nat * Z * string)); [done|].
  induction Hq as [|ev tr Hq _ IH]; [done|]. by destruct ev.
Qed.

Lemma decodes_app w n k k' :
  decodes w (n + Z.of_nat k) k' ++ decodes w n k = decodes w n (k + k').
Proof.
  induction k' as [|k' IH].
  - by rewrite Nat.add_0_r.
  - rewrite Nat.add_succ_r. simpl. rewrite IH. do 3 f_equal. lia.
Qed.

Lemma _awaitImageLoad_engines W complete naturalWidth image st r st' :
  _awaitImageLoad W complete naturalWidth image st = (r, st') ->
  workers st' = workers st /\ detectors st' = detectors st.
Proof.
  unfold _awaitImageLoad, ret.
  destruct (complete && negb (naturalWidth =? 0)); [by intros [= <- <-]|].
  destruct (imageLoad W (clock st)); by intros [= <- <-].
Qed.

Lemma _loadImage_engines W input st r st' :
  _loadImage W input st = (r, st') ->
  workers st' = workers st /\ detectors st' = detectors st.
Proof.
  destruct input as [complete nw img|img|blob|url|]; simpl.
  - apply _awaitImageLoad_engines.
  - by intros [= <- <-].
  - destruct (_awaitImageLoad W false 0 _ _) as [r1 st1] eqn:Ha.
    intros [= <- <-]. by apply _awaitImageLoad_engines in Ha.
  - apply _awaitImageLoad_engines.
  - by intros [= <- <-].
Qed.

Lemma _drawToCanvas_engines image region canvas disallow st :
  workers (snd (_drawToCanvas image region canvas disallow st)) = workers st
  /\ detectors (snd (_drawToCanvas image region canvas disallow st)) = detectors st.
Proof.
  unfold _drawToCanvas, resizeCanvas, createCanvas.
  destruct canvas; simpl; repeat case_match; done.
Qed.

(** The attempt of a scan that was given the worker [w]. *)
Lemma tryBlock_given_worker W self input o st w r l st1 :
  qrEngine o = Some (ArgEngine (EWorker w)) ->
  tryBlock W self input o st = Some (r, l, st1) ->
  l_qrEngine l = Some (ArgEngine (EWorker w))
  /\ exists k, (k <= 1)%nat
       /\ posts (trace st1) = decodes w (_workerMessageId st) k ++ posts (trace st)
       /\ _workerMessageId st1 = _workerMessageId st + Z.of_nat k
       /\ workers st1 = workers st /\ detectors st1 = detectors st.
Proof.
  intros Hq. unfold tryBlock, acquire. rewrite Hq.
  destruct (_loadImage W input st) as [[image|e] st0] eqn:Hi.
  - destruct (_drawToCanvas image (scanRegion o) (canvas o)
                (disallowCanvasResizing o) st0) as [c st2] eqn:Hd.
    pose proof (_drawToCanvas_engines image (scanRegion o) (canvas o)
                  (disallowCanvasResizing o) st0) as He.
    rewrite Hd in He. simpl in He.
    pose proof (_loadImage_engines W _ _ _ _ Hi) as He0.
    pose proof (_loadImage_frame W _ _ _ _ Hi) as Hf0.
    pose proof (_drawToCanvas_frame _ _ _ _ _ _ _ Hd) as Hf2.
    pose proof (frame_trans _ _ _ Hf0 Hf2) as (_ & Hid & _).
    pose proof (posts_frame _ _ (frame_trans _ _ _ Hf0 Hf2)) as Hp.
    unfold decodeWithWorker. cbn [is_some].
    pose proof (getImageData_state W c (log (ETimer (deadline o)) st2)) as Hg.
    destruct (getImageData W c (log (ETimer (deadline o)) st2)) as [[data|e] sg];
      simpl in Hg; subst sg.
    + simpl. destruct (settled _) as [out|]; [|done].
      intros [= <- <- <-]. split; [done|]. exists 1%nat. simpl.
      rewrite Hp, Hid, ?Z.add_0_r.
      destruct He, He0. split_and!; try done; try lia; congruence.
    + intros [= <- <- <-]. split; [done|]. exists 0%nat. simpl.
      rewrite Hp, Hid, ?Z.add_0_r.
      destruct He, He0. split_and!; try done; try lia; congruence.
  - intros [= <- <- <-]. split; [done|]. exists 0%nat. simpl.
    pose proof (_loadImage_frame W _ _ _ _ Hi) as Hf.
    rewrite (posts_frame _ _ Hf). destruct Hf as (_ & -> & _).
    pose proof (_loadImage_engines W _ _ _ _ Hi) as [? ?].
    split_and!; try done; lia.
Qed.

Lemma scanImage_given_worker_leaf W fuel input o st w out st' :
  qrEngine o = Some (ArgEngine (EWorker w)) ->
  fallsBack o = false ->
  scanImage W fuel input o st = Some (out, st') ->
  exists k, (k <= 1)%nat
    /\ posts (trace st') = decodes w (_workerMessageId st) k ++ posts (trace st)
    /\ _workerMessageId st' = _workerMessageId st + Z.of_nat k
    /\ workers st' = workers st /\ detectors st' = detectors st.
Proof.
  intros Hq Hf. destruct fuel as [|fuel]; [done|]. simpl. unfold scanBody.
  destruct (tryBlock W (scanImage W fuel) input o st) as [[[r l] st1]|] eqn:Ht;
    [|done].
  apply (tryBlock_given_worker W _ _ _ _ w) in Ht as [_ Hk]; [|done].
  rewrite Hq. unfold cleanup. simpl.
  unfold fallsBack in Hf.
  destruct r as [res|e]; [by intros [= _ <-]|].
  destruct (is_some (scanRegion o)), (alsoTryWithoutScanRegion o);
    try done; by intros [= _ <-].
Qed.

(** X5.  A scan that is given a worker posts nothing to it but decode
    requests: one for the attempt and one more when it retries without the
    region; never [inversionMode], never [close].  It creates no engine,
    and the ids of its requests follow the counter. *)
Theorem given_worker_gets_only_decode_requests W fuel input o st w out st' :
  qrEngine o = Some (ArgEngine (EWorker w)) ->
  scanImage W fuel input o st = Some (out, st') ->
  exists k, (k <= if fallsBack o then 2 else 1)%nat
    /\ posts (trace st') = decodes w (_workerMessageId st) k ++ posts (trace st)
    /\ _workerMessageId st' = _workerMessageId st + Z.of_nat k
    /\ workers st' = workers st /\ detectors st' = detectors st.
Proof.
  intros Hq Hs.
  destruct (fallsBack o) eqn:Hf;
    [|destruct (scanImage_given_worker_leaf W _ _ _ _ _ _ _ Hq Hf Hs)
        as (k & Hk & H); exists k; by split].
  destruct fuel as [|fuel]; [done|]. simpl in Hs. unfold scanBody in Hs.
  destruct (tryBlock W (scanImage W fuel) input o st) as [[[r l] st1]|] eqn:Ht;
    [|done].
  apply (tryBlock_given_worker W _ _ _ _ w) in Ht
    as (Hl & k & Hk & Hp & Hid & Hw & Hd); [|done].
  rewrite Hq in Hs. unfold cleanup in Hs. simpl in Hs.
  unfold fallsBack in Hf.
  destruct r as [res|e].
  { injection Hs as _ <-. exists k. split_and!; try done. lia. }
  destruct (is_some (scanRegion o)), (alsoTryWithoutScanRegion o); try done.
  simpl in Hs.
  destruct (scanImage W fuel input (retryWithoutRegion o l)
              (log ERetryWithoutRegion st1)) as [[out' st2]|] eqn:Hr; [|done].
  injection Hs as _ <-.
  apply (scanImage_given_worker_leaf W _ _ _ _ w) in Hr
    as (k' & Hk' & Hp' & Hid' & Hw' & Hd'); [|done..].
  simpl in Hp', Hid', Hw', Hd'.
  exists (k + k')%nat. split_and!; try lia; try congruence.
  rewrite Hp', Hp, Hid, app_assoc, decodes_app. done.
Qed.

Lemma given_worker_gets_only_decode_requests_witness :
  exists st',
    posts (trace st') = [(5%nat, 1, "decode"%string); (5%nat, 0, "decode"%string)]
    /\ workers st' = 0%nat.
Proof.
  pose (o := {| scanRegion := Some topLeft;
                qrEngine := Some (ArgEngine (EWorker 5));
                canvas := None; disallowCanvasResizing := false;
                alsoTryWithoutScanRegion := true; timeout := None |}).
  let run :=
    eval vm_compute in
      (scanImage blindWorkerWorld 3 (SrcDrawable photo) o initial) in
  match run with
  | Some (?out, ?st') =>
      exists st';
      destruct (given_worker_gets_only_decode_requests blindWorkerWorld 3
                  (SrcDrawable photo) o initial 5%nat out st' eq_refl)
        as (k & Hk & Hp & _ & Hw & _)
  end.
  - vm_compute. reflexivity.
  - split; [vm_compute; reflexivity|exact Hw].
Defined.





(** ** The detector path, further *)

Lemma cleanup_detector ext d c st :
  cleanup ext
    {| l_qrEngine := Some (ArgEngine (EBarcodeDetector d)); l_canvas := c |} st
  = st.
Proof. unfold cleanup, _postWorkerMessage. by destruct ext. Qed.

(** X7.  On the detector path the scan resolves with the [rawValue] of the
    first detection, whatever it is and however many follow; it posts no
    message (a detector is not sent [close]) and leaves the detector
    enabled or disabled as it was. *)
Theorem detector_first_detection_wins W fuel input o st d image st1 first rest :
  acquire W input (qrEngine o) st = (Ok (EBarcodeDetector d, image), st1) ->
  detect W (clock st1) d (deadline o) = Detected (first :: rest) ->
  exists st2,
    scanImage W (S fuel) input o st
    = Some (Resolved {| data := rawValue first |}, st2)
    /\ posts (trace st2) = posts (trace st)
    /\ _disableBarcodeDetector st2 = _disableBarcodeDetector st.
Proof.
  intros Ha Hdet.
  destruct (_drawToCanvas image (scanRegion o) (canvas o)
              (disallowCanvasResizing o) st1) as [c st2] eqn:Hd.
  pose proof (tryBlock_detector W (scanImage W fuel) _ _ _ _ _ _ _ _ Ha Hd) as Ht.
  unfold decodeWithDetector in Ht.
  change (clock (log (ETimer (deadline o)) st2)) with (clock st2) in Ht.
  replace (clock st2) with (clock st1) in Ht
    by (by rewrite <- (_drawToCanvas_clock image (scanRegion o) (canvas o)
                         (disallowCanvasResizing o) st1), Hd).
  rewrite Hdet in Ht.
  simpl. rewrite (scanBody_resolved _ _ _ _ _ _ _ _ Ht), cleanup_detector.
  eexists. split; [done|].
  pose proof (frame_trans _ _ _ (acquire_frame W _ _ _ _ _ Ha)
                (_drawToCanvas_frame _ _ _ _ _ _ _ Hd)) as Hf.
  split; [simpl; by apply posts_frame|].
  simpl. by destruct Hf.
Qed.

Lemma detector_first_detection_wins_witness :
  exists st2,
    scanImage
      (detectorWorld
         (Detected [ {| rawValue := ""; cornerPoints := [] |};
                     {| rawValue := "SECOND"; cornerPoints := [] |} ]))
      1 (SrcDrawable photo) noOptions initial
    = Some (Resolved {| data := "" |}, st2)
    /\ posts (trace st2) = [].
Proof.
  destruct (detector_first_detection_wins
              (detectorWorld
                 (Detected [ {| rawValue := ""; cornerPoints := [] |};
                             {| rawValue := "SECOND"; cornerPoints := [] |} ]))
              0 (SrcDrawable photo) noOptions initial 0%nat photo _
              {| rawValue := ""; cornerPoints := [] |}
              [ {| rawValue := "SECOND"; cornerPoints := [] |} ]
              eq_refl eq_refl)
    as (st2 & Hs & Hp & _).
  by exists st2.
Defined.

(** X8.  When [detect] fails with a message that is no capability error,
    the attempt rejects with "Scanner error: " and that message; there is
    no retry on a worker: [scanImage] is not called again, the flag is as
    it was, no engine is created and nothing is posted. *)
Theorem detector_other_failure_rejects W self input o st d image st1 e :
  acquire W input (qrEngine o) st = (Ok (EBarcodeDetector d, image), st1) ->
  detect W (clock st1) d (deadline o) = DetectFailed e ->
  isCapabilityError (thrownMessage e) = false ->
  exists l st2,
    tryBlock W self input o st
    = Some (Rejected ("Scanner error: " +:+ thrownMessage e), l, st2)
    /\ _disableBarcodeDetector st2 = _disableBarcodeDetector st
    /\ posts (trace st2) = posts (trace st)
    /\ workers st2 = workers st1
    /\ detectors st2 = detectors st1.
Proof.
  intros Ha Hdet Hcap.
  destruct (_drawToCanvas image (scanRegion o) (canvas o)
              (disallowCanvasResizing o) st1) as [c st2] eqn:Hd.
  pose proof (tryBlock_detector W self _ _ _ _ _ _ _ _ Ha Hd) as Ht.
  unfold decodeWithDetector in Ht.
  change (clock (log (ETimer (deadline o)) st2)) with (clock st2) in Ht.
  replace (clock st2) with (clock st1) in Ht
    by (by rewrite <- (_drawToCanvas_clock image (scanRegion o) (canvas o)
                         (disallowCanvasResizing o) st1), Hd).
  rewrite Hdet, Hcap in Ht.
  eexists _, _. split; [exact Ht|].
  pose proof (frame_trans _ _ _ (acquire_frame W _ _ _ _ _ Ha)
                (_drawToCanvas_frame _ _ _ _ _ _ _ Hd)) as Hf.
  pose proof (_drawToCanvas_engines image (scanRegion o) (canvas o)
                (disallowCanvasResizing o) st1) as He.
  rewrite Hd in He. simpl in He. simpl.
  split_and!; try tauto; [by destruct Hf|by apply posts_frame].
Qed.

Lemma detector_other_failure_rejects_witness :
  exists l st2,
    tryBlock (detectorWorld (DetectFailed (ThrownError "TypeError" "")))
      (scanImage (detectorWorld (DetectFailed (ThrownError "TypeError" ""))) 0)
      (SrcDrawable photo) noOptions initial
    = Some (Rejected "Scanner error: TypeError", l, st2)
    /\ _disableBarcodeDetector st2 = false.
Proof.
  destruct (detector_other_failure_rejects
              (detectorWorld (DetectFailed (ThrownError "TypeError" "")))
              (scanImage (detectorWorld (DetectFailed (ThrownError "TypeError" ""))) 0)
              (SrcDrawable photo) noOptions initial 0%nat photo _
              (ThrownError "TypeError" "") eq_refl eq_refl eq_refl)
    as (l & st2 & Ht & Hf & _).
  by exists l, st2.
Defined.

(** ** Object URLs *)

Lemma open_urls_quiet_free tr :
  Forall (fun ev => match ev with
                    | ECreateObjectURL _ | ERevokeObjectURL _ => False
                    | _ => True
                    end) tr ->
  open_urls tr = 0.
Proof. induction 1 as [|ev tr Hev _ IH]; [done|]. by destruct ev. Qed.

Lemma createQrEngine_urls W st r st' :
  createQrEngine W st = (r, st') -> open_urls (trace st') = open_urls (trace st).
Proof.
  unfold createQrEngine, bind.
  destruct (useBarcodeDetector W st) as [[use|e] st0] eqn:Hu;
    apply useBarcodeDetector_state in Hu as ->; [|by intros [= <- <-]].
  assert (createWorker W st = (r, st') ->
          open_urls (trace st') = open_urls (trace st)) as Hw.
  { unfold createWorker. destruct (importWorker W (clock st)); by intros [= <- <-]. }
  destruct (negb use); [done|].
  destruct (isChromiumOnMacWithArmVentura W); [done|]. by intros [= <- <-].
Qed.

Lemma _awaitImageLoad_trace W complete naturalWidth image st r st' :
  _awaitImageLoad W complete naturalWidth image st = (r, st') ->
  trace st' = trace st.
Proof.
  unfold _awaitImageLoad, ret.
  destruct (complete && negb (naturalWidth =? 0)); [by intros [= <- <-]|].
  destruct (imageLoad W (clock st)); by intros [= <- <-].
Qed.

Lemma _loadImage_trace W input st r st' :
  _loadImage W input st = (r, st') ->
  trace st'
  = match input with
    | SrcBlob blob => [ERevokeObjectURL blob; ECreateObjectURL blob]
    | _ => []
    end ++ trace st.
Proof.
  destruct input as [complete nw img|img|blob|url|]; simpl.
  - apply _awaitImageLoad_trace.
  - by intros [= <- <-].
  - destruct (_awaitImageLoad W false 0 _ _) as [r1 st1] eqn:Ha.
    intros [= <- <-]. apply _awaitImageLoad_trace in Ha. simpl. by rewrite Ha.
  - apply _awaitImageLoad_trace.
  - by intros [= <- <-].
Qed.

Lemma _loadImage_urls W input st r st' :
  _loadImage W input st = (r, st') -> open_urls (trace st') = open_urls (trace st).
Proof.
  intros Hl. rewrite (_loadImage_trace W _ _ _ _ Hl).
  destruct input; simpl; lia.
Qed.

Lemma acquire_urls W input q st r st' :
  acquire W input q st = (r, st') -> open_urls (trace st') = open_urls (trace st).
Proof.
  unfold acquire.
  destruct (match q with
            | Some (ArgEngine e) => (Ok e, st)
            | Some (ArgRejects reason) => (Throw reason, st)
            | None => createQrEngine W st
            end) as [e st1] eqn:He.
  assert (open_urls (trace st1) = open_urls (trace st)) as H1.
  { destruct q as [[?|?]|]; simplify_eq; try done.
    by eapply createQrEngine_urls. }
  destruct (_loadImage W input st1) as [i st2] eqn:Hi.
  apply _loadImage_urls in Hi.
  destruct e, i; intros [= <- <-]; congruence.
Qed.

Lemma _drawToCanvas_urls image region canvas disallow st :
  open_urls (trace (snd (_drawToCanvas image region canvas disallow st)))
  = open_urls (trace st).
Proof.
  unfold _drawToCanvas, resizeCanvas, createCanvas.
  destruct canvas; simpl; repeat case_match; done.
Qed.

Lemma cleanup_urls ext l st :
  open_urls (trace (cleanup ext l st)) = open_urls (trace st).
Proof.
  unfold cleanup, _postWorkerMessage.
  destruct ext; [done|]. by destruct (l_qrEngine l) as [[[w|d]|reason]|].
Qed.

Lemma tryBlock_urls W self input o st r l st' :
  (forall i o' s r' s',
     self i o' s = Some (r', s') -> open_urls (trace s') = open_urls (trace s)) ->
  tryBlock W self input o st = Some (r, l, st') ->
  open_urls (trace st') = open_urls (trace st).
Proof.
  intros Hself. unfold tryBlock.
  destruct (acquire W input (qrEngine o) st) as [[[engine image]|e] st1] eqn:Ha;
    apply acquire_urls in Ha; [|intros [= _ _ <-]; done].
  pose proof (_drawToCanvas_urls image (scanRegion o) (canvas o)
                (disallowCanvasResizing o) st1) as Hd.
  destruct (_drawToCanvas image (scanRegion o) (canvas o)
              (disallowCanvasResizing o) st1) as [c st2]. simpl in Hd.
  destruct engine as [w|d].
  - unfold decodeWithWorker.
    set (sA := log (ETimer (deadline o)) _).
    assert (open_urls (trace sA) = open_urls (trace st2)) as HA
      by (subst sA; by destruct (is_some (qrEngine o))).
    clearbody sA.
    pose proof (getImageData_state W c sA) as Hg.
    destruct (getImageData W c sA) as [[data|e] sg]; simpl in Hg; subst sg.
    + simpl. destruct (settled _); [|done].
      intros [= _ _ <-]. simpl. congruence.
    + intros [= _ _ <-]. simpl. congruence.
  - unfold decodeWithDetector.
    destruct (detect W _ d (deadline o)) as [results|err|].
    + intros [= _ _ <-]. simpl. congruence.
    + destruct (isCapabilityError (thrownMessage err)).
      * destruct (self input _ _) as [[out st3]|] eqn:Hs; [|done].
        intros [= _ _ <-]. apply Hself in Hs. simpl in Hs. congruence.
      * intros [= _ _ <-]. simpl. congruence.
    + intros [= _ _ <-]. simpl. congruence.
Qed.

(** X9.  [_loadImage] creates an object URL for a File or Blob and for
    nothing else, and revokes it whether the image loads or fails to; so
    through every scan, with its retries and on all its exits, the
    number of object URLs created and not revoked is what it was. *)
Theorem object_urls_are_released W fuel input o st r st' :
  scanImage W fuel input o st = Some (r, st') ->
  open_urls (trace st') = open_urls (trace st)
  /\ forall s r1 s1,
       _loadImage W input s = (r1, s1) ->
       trace s1
       = match input with
         | SrcBlob blob => [ERevokeObjectURL blob; ECreateObjectURL blob]
         | _ => []
         end ++ trace s.
Proof.
  intros Hs. split; [|intros s r1 s1; apply _loadImage_trace].
  revert input o st r st' Hs.
  induction fuel as [|fuel IH]; intros input o st r st'; [done|].
  simpl. unfold scanBody.
  destruct (tryBlock W (scanImage W fuel) input o st) as [[[out l] st1]|] eqn:Ht;
    [|done].
  apply tryBlock_urls in Ht; [|exact IH].
  destruct out as [res|e].
  - intros [= _ <-]. by rewrite cleanup_urls.
  - destruct (negb (is_some (scanRegion o)) || negb (alsoTryWithoutScanRegion o)).
    + intros [= _ <-]. by rewrite cleanup_urls.
    + destruct (scanImage W fuel input _ _) as [[out st2]|] eqn:Hr; [|done].
      intros [= _ <-]. apply IH in Hr. simpl in Hr.
      rewrite cleanup_urls. congruence.
Qed.

Lemma object_urls_are_released_witness :
  exists st',
    open_urls (trace st') = 0
    /\ In (ECreateObjectURL 4) (trace st')
    /\ In (ERevokeObjectURL 4) (trace st').
Proof.
  let run :=
    eval vm_compute in
      (scanImage blindWorkerWorld 3 (SrcBlob 4) (withRegion topLeft true None)
         initial) in
  match run with
  | Some (?r, ?st') =>
      exists st';
      destruct (object_urls_are_released blindWorkerWorld 3 (SrcBlob 4)
                  (withRegion topLeft true None) initial r st') as [Hu _]
  end.
  - vm_compute. reflexivity.
  - split; [exact Hu|]. split; vm_compute; tauto.
Defined.

(** X10.  [_loadImage] rejects in two cases only: with "Unsupported image
    type." for an input of no supported type, and with "Image load error"
    when it has to wait for the image and the wait ends with an ErrorEvent.
    An error event that is no ErrorEvent ends the wait like a load: for
    every supported input the promise then resolves. *)
Theorem _loadImage_rejections W input st e :
  ((exists st', _loadImage W input st = (Throw e, st'))
   <-> (input = SrcUnsupported /\ e = "Unsupported image type."%string)
       \/ (waitsForLoad input = true
           /\ imageLoad W (clock st) = ErrorEventFired
           /\ e = "Image load error"%string))
  /\ (input <> SrcUnsupported ->
      imageLoad W (clock st) = OtherEventFired ->
      exists image st', _loadImage W input st = (Ok image, st')).
Proof.
  assert (forall complete nw img s,
            (exists s', _awaitImageLoad W complete nw img s = (Throw e, s'))
            <-> (negb (complete && negb (nw =? 0)) = true
                 /\ imageLoad W (clock s) = ErrorEventFired
                 /\ e = "Image load error"%string)) as Hwait.
  { intros complete nw img s. unfold _awaitImageLoad, ret.
    destruct (complete && negb (nw =? 0)); simpl.
    - split; [by intros [s' ?]|by intros [? _]].
    - destruct (imageLoad W (clock s)); split;
        try (intros [s' [= <-]]); try (intros (_ & ? & ?)); try done.
      subst e. eauto. }
  assert (forall complete nw img s,
            imageLoad W (clock s) = OtherEventFired ->
            exists image s', _awaitImageLoad W complete nw img s = (Ok image, s'))
    as Hother.
  { intros complete nw img s Ho. unfold _awaitImageLoad, ret.
    destruct (complete && negb (nw =? 0)); [eauto|]. rewrite Ho. eauto. }
  split.
  - destruct input as [complete nw img|img|blob|url|]; simpl.
    + rewrite Hwait. split; [tauto|]. by intros [[? _]|?].
    + split; [by intros [st' ?]|]. by intros [[? _]|[? _]].
    + split.
      * intros [st' Hl].
        destruct (_awaitImageLoad W false 0 _ _) as [[i|e'] st1] eqn:Ha; [done|].
        injection Hl as <- <-. right.
        destruct (proj1 (Hwait false 0 _ _) (ex_intro _ st1 Ha)) as (_ & ? & ?).
        done.
      * intros [[? _]|(_ & Hev & ->)]; [done|].
        destruct (proj2 (Hwait false 0
                           (newImage (log (ECreateObjectURL blob) st))
                           (log (ECreateObjectURL blob) st)))
          as [s' Hs']; [done|].
        rewrite Hs'. eauto.
    + rewrite Hwait. split; [tauto|]. by intros [[? _]|?].
    + split; [intros [st' [= <-]]; by left|].
      intros [[_ ->]|[? _]]; [|done]. unfold throw. eauto.
  - intros Hsup Ho. destruct input as [complete nw img|img|blob|url|]; simpl.
    + by apply Hother.
    + unfold ret. eauto.
    + destruct (Hother false 0 (newImage (log (ECreateObjectURL blob) st))
                  (log (ECreateObjectURL blob) st) Ho) as (image & s' & ->).
      eauto.
    + by apply Hother.
    + done.
Qed.

Lemma _loadImage_rejections_witness :
  exists image st',
    _loadImage brokenImageWorld (SrcUrl "missing.png") initial = (Ok image, st').
Proof.
  refine (proj2 (_loadImage_rejections brokenImageWorld (SrcUrl "missing.png")
                   initial "") _ eq_refl).
  discriminate.
Defined.

(** ** The footprint of a drawing *)

Lemma setWidth_others c v st h :
  h <> c -> canvases (setWidth c v st) !! h = canvases st !! h.
Proof. intros Hne. unfold setWidth. simpl. by apply list_lookup_insert_ne. Qed.

Lemma setHeight_others c v st h :
  h <> c -> canvases (setHeight c v st) !! h = canvases st !! h.
Proof. intros Hne. unfold setHeight. simpl. by apply list_lookup_insert_ne. Qed.

Lemma drawImage_others c image sx sy sw sh st h :
  h <> c -> canvases (drawImage c image sx sy sw sh st) !! h = canvases st !! h.
Proof. intros Hne. unfold drawImage. simpl. by apply list_lookup_insert_ne. Qed.

Lemma resizeCanvas_others image region c st h :
  h <> c -> canvases (resizeCanvas image region c st) !! h = canvases st !! h.
Proof.
  intros Hne. unfold resizeCanvas.
  repeat case_match; rewrite ?setHeight_others, ?setWidth_others; done.
Qed.

Lemma resizeCanvas_length image region c st :
  length (canvases (resizeCanvas image region c st)) = length (canvases st).
Proof.
  unfold resizeCanvas, setHeight, setWidth.
  repeat case_match; simpl; by rewrite ?length_insert.
Qed.

(** X11.  [_drawToCanvas] draws on the canvas it is given, or on one new
    canvas when it is given none, and touches no other canvas of the page:
    every other canvas has the dimensions and the content it had. *)
Theorem _drawToCanvas_footprint image region canvas disallow st :
  let c := fst (_drawToCanvas image region canvas disallow st) in
  let st' := snd (_drawToCanvas image region canvas disallow st) in
  c = match canvas with
      | Some c0 => c0
      | None => length (canvases st)
      end
  /\ length (canvases st')
     = match canvas with
       | Some _ => length (canvases st)
       | None => S (length (canvases st))
       end
  /\ forall h,
       h <> c -> (h < length (canvases st))%nat ->
       canvases st' !! h = canvases st !! h.
Proof.
  intros c st'. subst c st'. unfold _drawToCanvas.
  assert (forall c sx sy sw sh s,
            length (canvases (drawImage c image sx sy sw sh s))
            = length (canvases s)) as Hdraw
    by (intros; unfold drawImage; simpl; by rewrite length_insert).
  destruct canvas as [c0|]; cbn -[drawImage resizeCanvas].
  - split; [done|]. split.
    + rewrite Hdraw. destruct disallow; [done|apply resizeCanvas_length].
    + intros h Hne _. rewrite drawImage_others by done.
      destruct disallow; [done|by apply resizeCanvas_others].
  - split; [done|]. split.
    + rewrite Hdraw.
      destruct disallow; rewrite ?resizeCanvas_length; simpl;
        rewrite length_app; simpl; lia.
    + intros h Hne Hlt. rewrite drawImage_others by done.
      destruct disallow; rewrite ?resizeCanvas_others by done; simpl;
        by rewrite lookup_app_l.
Qed.

Lemma _drawToCanvas_footprint_witness :
  let st := set_canvases
              [ {| c_width := 25; c_height := 40; c_content := [] |};
                {| c_width := 7; c_height := 9; c_content := [] |} ] initial in
  canvases (snd (_drawToCanvas photo (Some topLeft) (Some 1%nat) false st)) !! 0%nat
  = Some {| c_width := 25; c_height := 40; c_content := [] |}.
Proof.
  intros st.
  destruct (_drawToCanvas_footprint photo (Some topLeft) (Some 1%nat) false st)
    as (_ & _ & Hothers).
  rewrite (Hothers 0%nat); [reflexivity|discriminate|simpl; lia].
Defined.

(** X12.  With [disallowCanvasResizing] the canvas keeps its width and its
    height whatever the region and its downscale target say, no dimension
    is written, and the region of the image (the whole image by default) is
    drawn over the whole canvas, on top of what it held. *)
Theorem drawing_without_resizing image region c st :
  (c < length (canvases st))%nat ->
  let before := getCanvas c st in
  let st' := snd (_drawToCanvas image region (Some c) true st) in
  trace st' = trace st
  /\ getCanvas c st'
     = {| c_width := c_width before;
          c_height := c_height before;
          c_content :=
            {| d_image := image;
               d_sx := match region with Some r => Js.num_or (sr_x r) 0 | None => 0 end;
               d_sy := match region with Some r => Js.num_or (sr_y r) 0 | None => 0 end;
               d_sw := match region with
                       | Some r => Js.num_or (sr_width r) (img_width image)
                       | None => img_width image
                       end;
               d_sh := match region with
                       | Some r => Js.num_or (sr_height r) (img_height image)
                       | None => img_height image
                       end;
               d_dw := c_width before;
               d_dh := c_height before |}
            :: c_content before |}.
Proof.
  intros Hc before st'. subst st'. unfold _drawToCanvas. simpl.
  split; [done|].
  unfold drawImage. rewrite getCanvas_insert by done.
  by destruct region.
Qed.

Lemma drawing_without_resizing_witness :
  let st := set_canvases
              [ {| c_width := 300; c_height := 150; c_content := [] |} ] initial in
  c_width (getCanvas 0 (snd (_drawToCanvas photo (Some topLeft) (Some 0%nat) true st)))
  = 300.
Proof.
  intros st.
  destruct (drawing_without_resizing photo (Some topLeft) 0%nat st) as [_ Hg].
  - simpl. lia.
  - by rewrite Hg.
Defined.

(** ** Engine selection, further *)

(** X13.  [createQrEngine] produces a BarcodeDetector in exactly one case:
    the detector is not disabled, [BarcodeDetector] is in the window with
    [getSupportedFormats], the formats it resolves with include "qr_code",
    and the environment is not the excluded one.  In every other case in
    which it produces an engine, the engine is a worker. *)
Theorem detector_selected_exactly_when W st d st' :
  createQrEngine W st = (Ok (EBarcodeDetector d), st')
  <-> _disableBarcodeDetector st = false
      /\ barcodeDetectorInWindow W = true
      /\ hasGetSupportedFormats W = true
      /\ (exists formats, getSupportedFormats W = inr formats
                          /\ In "qr_code"%string formats)
      /\ isChromiumOnMacWithArmVentura W = false
      /\ d = detectors st
      /\ st' = log (ENewDetector (detectors st))
                 (set_detectors (S (detectors st)) st).
Proof.
  assert (forall formats,
            existsb (String.eqb "qr_code") formats = true
            <-> In "qr_code"%string formats) as Hin.
  { intros formats. rewrite existsb_exists. split.
    - intros (x & Hx & Heq). apply String.eqb_eq in Heq. by subst x.
    - intros Hx. exists "qr_code"%string. split; [done|]. apply String.eqb_refl. }
  unfold createQrEngine, bind, useBarcodeDetector. split.
  - destruct (_disableBarcodeDetector st);
      [intros Hc; by apply createWorker_worker in Hc|].
    destruct (barcodeDetectorInWindow W); cbn [negb];
      [|intros Hc; by apply createWorker_worker in Hc].
    destruct (hasGetSupportedFormats W); cbn [negb];
      [|intros Hc; by apply createWorker_worker in Hc].
    destruct (getSupportedFormats W) as [reason|formats]; [done|].
    destruct (existsb (String.eqb "qr_code") formats) eqn:Hq; cbn [negb];
      [|intros Hc; by apply createWorker_worker in Hc].
    destruct (isChromiumOnMacWithArmVentura W);
      [intros Hc; by apply createWorker_worker in Hc|].
    intros [= <- <-]. split_and!; try done.
    exists formats. split; [done|]. by apply Hin.
  - intros (-> & -> & -> & (formats & -> & Hq) & -> & -> & ->). cbn [negb].
    apply Hin in Hq. by rewrite Hq.
Qed.

Lemma detector_selected_exactly_when_witness :
  createQrEngine (detectorWorld DetectPending) initial
  = (Ok (EBarcodeDetector 0),
     log (ENewDetector 0) (set_detectors 1 initial)).
Proof.
  apply (proj2 (detector_selected_exactly_when (detectorWorld DetectPending)
                  initial 0%nat _)).
  split_and!; try reflexivity.
  exists ["qr_code"%string]. split; [reflexivity|by left].
Defined.

(** X14.  For Chromium on a Mac whose high-entropy query resolves, the
    environment is excluded when the architecture contains "arm" in any
    case and the platform version parses to 13 or more, a missing or empty
    field counting as "arm" and as "13".  So an answer without
    architecture and version excludes the environment, and an architecture
    without "arm" never does. *)
Theorem exclusion_defaults_to_arm_ventura W ua architecture platformVersion :
  userAgentData W = Some ua ->
  existsb (fun b => Js.contains_i "chromium" (brand b)) (brands ua) = true ->
  Js.contains_i "macos" (platform ua) || Js.contains_i "mac os" (platform ua) = true ->
  getHighEntropyValues ua = ProbeResolves architecture platformVersion ->
  (Js.str_or architecture "" = ""%string ->
   Js.str_or platformVersion "" = ""%string ->
   isChromiumOnMacWithArmVentura W = true)
  /\ (forall a, architecture = Some a -> a <> ""%string ->
                Js.contains_i "arm" a = false ->
                isChromiumOnMacWithArmVentura W = false)
  /\ (forall v n, platformVersion = Some v -> v <> ""%string ->
                  Js.parseInt v = Some n -> n < 13 ->
                  isChromiumOnMacWithArmVentura W = false).
Proof.
  intros Hua Hbrand Hplatform Hprobe.
  unfold isChromiumOnMacWithArmVentura.
  rewrite Hua, Hbrand, Hplatform, Hprobe. simpl. split_and!.
  - intros Ha Hv.
    assert (Js.str_or architecture "arm" = "arm"%string) as ->
      by (by destruct architecture as [[|? ?]|]).
    assert (Js.str_or platformVersion "13" = "13"%string) as ->
      by (by destruct platformVersion as [[|? ?]|]).
    reflexivity.
  - intros a -> Ha Harm.
    assert (Js.str_or (Some a) "arm" = a) as -> by (by destruct a).
    by rewrite Harm.
  - intros v n -> Hv Hparse Hn.
    assert (Js.str_or (Some v) "13" = v) as -> by (by destruct v).
    rewrite Hparse. simpl.
    destruct (Z.leb_spec 13 n); [lia|]. apply andb_false_r.
Qed.

Lemma exclusion_defaults_to_arm_ventura_witness :
  isChromiumOnMacWithArmVentura (macWorldWith (ProbeResolves None (Some "")))
  = true
  /\ isChromiumOnMacWithArmVentura
       (macWorldWith (ProbeResolves (Some "x86") (Some "14.2.1")))
     = false.
Proof.
  split.
  - exact (proj1 (exclusion_defaults_to_arm_ventura
                    (macWorldWith (ProbeResolves None (Some ""))) _ None (Some "")
                    eq_refl eq_refl eq_refl eq_refl) eq_refl eq_refl).
  - refine (proj1 (proj2 (exclusion_defaults_to_arm_ventura
                    (macWorldWith (ProbeResolves (Some "x86") (Some "14.2.1")))
                    _ (Some "x86") (Some "14.2.1")
                    eq_refl eq_refl eq_refl eq_refl)) "x86" eq_refl _ eq_refl).
    discriminate.
Defined.

(** ** The first event that settles a request *)

(** X15.  The first event that settles a request decides it: after the
    matching response or an error event, whatever arrives on the channel -
    another response with the same id, an error, the deadline - changes
    nothing, and before it messages with other ids are skipped. *)
Theorem first_settling_event_decides id pre ev post :
  Forall (unmatched id) pre ->
  ~ unmatched id ev ->
  request id (pre ++ ev :: post) = dispatch (pending id) ev
  /\ settled (request id (pre ++ ev :: post))
     = Some match ev with
            | MessageEvent _ (Some d) => Resolved {| data := d |}
            | MessageEvent _ None => Rejected NO_QR_CODE_FOUND
            | ErrorEvent err => Rejected ("Scanner error: " +:+ errorMessage err)
            end.
Proof.
  intros Hpre Hev.
  assert (request id (pre ++ ev :: post) = dispatch (pending id) ev) as Hr.
  { destruct ev as [id' payload|err].
    - assert (id' = id) as -> by (simpl in Hev; lia).
      by rewrite request_message.
    - by rewrite request_error. }
  split; [done|]. rewrite Hr.
  destruct ev as [id' payload|err]; simpl.
  - assert (id' = id) as -> by (simpl in Hev; lia).
    unfold onMessage. simpl. rewrite Z.eqb_refl. by destruct payload.
  - done.
Qed.

Lemma first_settling_event_decides_witness :
  settled (request 7 [MessageEvent 6 (Some "OLD"); MessageEvent 7 (Some "HELLO");
                      MessageEvent 7 None; ErrorEvent ErrAbsent])
  = Some (Resolved {| data := "HELLO" |}).
Proof.
  refine (proj2 (first_settling_event_decides 7 [MessageEvent 6 (Some "OLD")]
                   (MessageEvent 7 (Some "HELLO"))
                   [MessageEvent 7 None; ErrorEvent ErrAbsent] _ _)).
  - repeat constructor. simpl. lia.
  - simpl. lia.
Defined.
